(** * The masking canvas of the watermark remover (src/components/CanvasBoard.tsx)

    A shallow embedding of the [CanvasBoard] React component: its state (the
    seven [useState] cells), its event handlers, the image-load effect and the
    imperative handle ([getMaskDataURL], [resetMask], [undo]).

    Conventions of the embedding.

    - A handler is a function of two states: the state of the render that
      created it, whose cells it reads, and the state queued for the next
      render, which its [setX] calls update in program order. A setter
      called with a value replaces the cell; a setter called with a function
      transforms the queued value. [step] and [run] describe events that
      are each rendered before the next one is handled; [batch] and
      [runBatches] describe events handled between two renders.
    - JavaScript numbers are kept abstract in a class [Number]; the
      definitions are written once and have two readings: IEEE binary64
      ([float_Number], what the browser computes) and exact rationals
      ([Q_Number], the arithmetic the geometric statements are about).
    - What the component reads from the browser (the container's client size,
      the canvas' bounding rectangle, whether a 2D context can be obtained) is
      an explicit [DOM] argument of the handler that reads it.
    - The off-screen canvas is the list of paint operations issued on it, in
      order, together with its dimensions. *)

From Stdlib Require Import String QArith Qminmax Lqa Floats ZArith Bool List Lia.
From Stdlib Require Import Ascii NArith.
From Equations Require Import Equations.
Import ListNotations.

Set Implicit Arguments.

(** ** Numbers *)

(** The operations the component performs on JavaScript numbers. [lit] reads a
    numeric literal of the source text. [min2] and [max2] are [Math.min] and
    [Math.max] on two arguments. *)
Class Number : Type := {
  num : Type;
  lit : Q -> num;
  nadd : num -> num -> num;
  nsub : num -> num -> num;
  nmul : num -> num -> num;
  ndiv : num -> num -> num;
  nneg : num -> num;
  min2 : num -> num -> num;
  max2 : num -> num -> num
}.

Declare Scope num_scope.
Delimit Scope num_scope with num.
Infix "+" := nadd : num_scope.
Infix "-" := nsub : num_scope.
Infix "*" := nmul : num_scope.
Infix "/" := ndiv : num_scope.
Notation "- a" := (nneg a) : num_scope.

(** Variadic [Math.min(a, b, ...)] and [Math.max(a, b, ...)] with at least one
    argument: the arguments are folded from the left. *)
Definition Math_min `{Number} (a : num) (rest : list num) : num :=
  fold_left min2 rest a.

Definition Math_max `{Number} (a : num) (rest : list num) : num :=
  fold_left max2 rest a.

(** *** IEEE binary64 *)

Module Binary64.

Definition of_Z (z : Z) : float :=
  match z with
  | Z0 => PrimFloat.zero
  | Zpos _ => PrimFloat.of_uint63 (Uint63.of_Z z)
  | Zneg p => PrimFloat.opp (PrimFloat.of_uint63 (Uint63.of_Z (Zpos p)))
  end.

(** A decimal literal [n/d] with small [n] and [d] is the correctly rounded
    quotient of two exactly represented integers. *)
Definition of_literal (q : Q) : float :=
  PrimFloat.div (of_Z (Qnum q)) (of_Z (Zpos (Qden q))).

Definition is_neg_zero (a : float) : bool :=
  PrimFloat.is_zero a && PrimFloat.get_sign a.

(** [Math.max]: NaN if an argument is NaN, and [+0] is larger than [-0]. *)
Definition max (a b : float) : float :=
  if PrimFloat.is_nan a || PrimFloat.is_nan b then PrimFloat.nan
  else if PrimFloat.ltb a b then b
  else if PrimFloat.ltb b a then a
  else if is_neg_zero a then b else a.

(** [Math.min]: NaN if an argument is NaN, and [-0] is smaller than [+0]. *)
Definition min (a b : float) : float :=
  if PrimFloat.is_nan a || PrimFloat.is_nan b then PrimFloat.nan
  else if PrimFloat.ltb a b then a
  else if PrimFloat.ltb b a then b
  else if is_neg_zero a then a else b.

End Binary64.

Definition float_Number : Number := {|
  num := float;
  lit := Binary64.of_literal;
  nadd := PrimFloat.add;
  nsub := PrimFloat.sub;
  nmul := PrimFloat.mul;
  ndiv := PrimFloat.div;
  nneg := PrimFloat.opp;
  min2 := Binary64.min;
  max2 := Binary64.max
|}.

(** *** Exact rationals *)

Definition Q_Number : Number := {|
  num := Q;
  lit := fun q => q;
  nadd := Qplus;
  nsub := Qminus;
  nmul := Qmult;
  ndiv := Qdiv;
  nneg := Qopp;
  min2 := Qmin;
  max2 := Qmax
|}.

(** ** JavaScript arrays *)

(** [Array.prototype.slice(start, end)]: a negative index counts from the end
    of the array, and both indices are clamped to the array. *)
Definition relativeIndex (len k : Z) : Z :=
  if (k <? 0)%Z then Z.max (len + k) 0 else Z.min k len.

Definition slice {A : Type} (start end_ : Z) (l : list A) : list A :=
  let len := Z.of_nat (length l) in
  let from := relativeIndex len start in
  let final := relativeIndex len end_ in
  firstn (Z.to_nat (final - from)) (skipn (Z.to_nat from) l).

(** A value together with the equation that it is the value of [a]: lets a
    loop test be remembered in the branch it guards. *)
Definition inspect {A : Type} (a : A) : { b : A | a = b } := exist _ a eq_refl.

(** ** The component *)

Section CanvasBoard.

Context {N : Number}.
Local Open Scope num_scope.

(** *** src/types.ts *)

Record Point : Type := { x : num; y : num }.

Record Path : Type := { points : list Point; size : num }.

Inductive ToolMode : Type := DRAW | PAN.

(** *** Browser objects *)

(** A decoded image: the address it was loaded from and its natural size. *)
Record HTMLImageElement : Type := {
  src : string;
  width : num;
  height : num
}.

Record HTMLDivElement : Type := { clientWidth : num; clientHeight : num }.

(** [getBoundingClientRect()] of the visible canvas. *)
Record DOMRect : Type := { left : num; top : num }.

(** What the handlers read from the document at the time they run:
    [containerRef.current], [canvasRef.current] (through its bounding
    rectangle), and whether [getContext('2d')] of a fresh canvas yields a
    context ([false] for a [null] result). *)
Record DOM : Type := {
  containerRef : option HTMLDivElement;
  canvasRef : option DOMRect;
  getContext2d : bool
}.

Record Touch : Type := { touchX : num; touchY : num }.

(** [React.MouseEvent | React.TouchEvent]. The handlers read [e.touches[0]]
    of a touch event, so the first touch is a field of its own. *)
Inductive PointerEvent : Type :=
| MouseEvent (clientX clientY : num)
| TouchEvent (touch0 : Touch) (more : list Touch).

Record WheelEvent : Type := {
  wheelX : num;
  wheelY : num;
  deltaY : num
}.

(** *** Props and state *)

Record CanvasBoardProps : Type := {
  imageSrc : option string;
  mode : ToolMode;
  brushSize : num
}.

Record State : Type := {
  scale : num;
  offset : Point;
  isDragging : bool;
  lastPos : Point;
  paths : list Path;
  currentPath : list Point;
  imgObj : option HTMLImageElement
}.

Definition initialState : State := {|
  scale := lit 1;
  offset := {| x := lit 0; y := lit 0 |};
  isDragging := false;
  lastPos := {| x := lit 0; y := lit 0 |};
  paths := [];
  currentPath := [];
  imgObj := None
|}.

Definition setScale (v : num) (st : State) : State :=
  {| scale := v; offset := offset st; isDragging := isDragging st;
     lastPos := lastPos st; paths := paths st;
     currentPath := currentPath st; imgObj := imgObj st |}.

Definition setOffset (v : Point) (st : State) : State :=
  {| scale := scale st; offset := v; isDragging := isDragging st;
     lastPos := lastPos st; paths := paths st;
     currentPath := currentPath st; imgObj := imgObj st |}.

Definition setIsDragging (v : bool) (st : State) : State :=
  {| scale := scale st; offset := offset st; isDragging := v;
     lastPos := lastPos st; paths := paths st;
     currentPath := currentPath st; imgObj := imgObj st |}.

Definition setLastPos (v : Point) (st : State) : State :=
  {| scale := scale st; offset := offset st; isDragging := isDragging st;
     lastPos := v; paths := paths st;
     currentPath := currentPath st; imgObj := imgObj st |}.

Definition setPaths (v : list Path) (st : State) : State :=
  {| scale := scale st; offset := offset st; isDragging := isDragging st;
     lastPos := lastPos st; paths := v;
     currentPath := currentPath st; imgObj := imgObj st |}.

Definition setCurrentPath (v : list Point) (st : State) : State :=
  {| scale := scale st; offset := offset st; isDragging := isDragging st;
     lastPos := lastPos st; paths := paths st;
     currentPath := v; imgObj := imgObj st |}.

Definition setImgObj (v : option HTMLImageElement) (st : State) : State :=
  {| scale := scale st; offset := offset st; isDragging := isDragging st;
     lastPos := lastPos st; paths := paths st;
     currentPath := currentPath st; imgObj := v |}.

(** A setter called with a function, [setX(prev => ...)]: React applies the
    function to the value queued so far, which is not the value the handler
    sees in its own render when an earlier update is still waiting. *)
Definition setOffsetWith (f : Point -> Point) (st : State) : State :=
  setOffset (f (offset st)) st.

Definition setPathsWith (f : list Path -> list Path) (st : State) : State :=
  setPaths (f (paths st)) st.

Definition setCurrentPathWith (f : list Point -> list Point) (st : State) : State :=
  setCurrentPath (f (currentPath st)) st.

(** *** Image load (the effect on [imageSrc])

    [img.onload]: the image becomes the current one, the viewport is fitted
    to the container when the container element exists, and the strokes are
    dropped. *)
Definition onload (dom : DOM) (img : HTMLImageElement) (st : State) : State :=
  let st := setImgObj (Some img) st in
  let st :=
    match containerRef dom with
    | Some container =>
        let scaleX := clientWidth container / width img in
        let scaleY := clientHeight container / height img in
        let fitScale := Math_min scaleX [scaleY; lit 1] * lit 0.9 in
        let st := setScale fitScale st in
        setOffset {| x := (clientWidth container - width img * fitScale) / lit 2;
                     y := (clientHeight container - height img * fitScale) / lit 2 |}
                  st
    | None => st
    end in
  setPaths [] st.

(** The [else] branch of the effect: [imageSrc] became [null]. *)
Definition imageSrcCleared (st : State) : State :=
  setPaths [] (setImgObj None st).

(** The second effect reports [paths.length > 0] to the parent. *)
Definition onMaskChange (st : State) : bool :=
  (0 <? length (paths st))%nat.

(** *** Pointer handlers

    A handler is created by a render and closes over the state of that
    render: the cells it reads ([imgObj], [isDragging], [lastPos],
    [currentPath], [scale], [offset]) are those of [render]. Its updates are
    queued on [st], the state the next render will show: a setter called with
    a value replaces the cell, a setter called with a function transforms
    what is queued. [render] and [st] are the same state when the last event
    has been rendered before this one is handled. *)

(** [!!o] for an object reference that may be [null]. *)
Definition truthy {A : Type} (o : option A) : bool :=
  match o with Some _ => true | None => false end.

Definition getPointerPos (dom : DOM) (e : PointerEvent) : Point :=
  match canvasRef dom with
  | None => {| x := lit 0; y := lit 0 |}
  | Some rect =>
      let clientX :=
        match e with TouchEvent t _ => touchX t | MouseEvent cx _ => cx end in
      let clientY :=
        match e with TouchEvent t _ => touchY t | MouseEvent _ cy => cy end in
      {| x := clientX - left rect; y := clientY - top rect |}
  end.

(** Inverse of translate + scale. *)
Definition getCanvasCoords (st : State) (screenPos : Point) : Point :=
  {| x := (x screenPos - x (offset st)) / scale st;
     y := (y screenPos - y (offset st)) / scale st |}.

Definition handlePointerDown
    (props : CanvasBoardProps) (dom : DOM) (render st : State) (e : PointerEvent)
    : State :=
  match imgObj render with
  | None => st
  | Some _ =>
      let pos := getPointerPos dom e in
      let st' := setLastPos pos (setIsDragging true st) in
      match mode props with
      | DRAW =>
          let canvasPos := getCanvasCoords render pos in
          setCurrentPath [canvasPos] st'
      | PAN => st'
      end
  end.

Definition handlePointerMove
    (props : CanvasBoardProps) (dom : DOM) (render st : State) (e : PointerEvent)
    : State :=
  if negb (isDragging render) || negb (truthy (imgObj render)) then st
  else
    let pos := getPointerPos dom e in
    match mode props with
    | PAN =>
        let dx := x pos - x (lastPos render) in
        let dy := y pos - y (lastPos render) in
        let st' :=
          setOffsetWith (fun prev => {| x := x prev + dx; y := y prev + dy |}) st in
        setLastPos pos st'
    | DRAW =>
        let canvasPos := getCanvasCoords render pos in
        let st' := setCurrentPathWith (fun prev => prev ++ [canvasPos]) st in
        setLastPos pos st'
    end.

Definition isDRAW (m : ToolMode) : bool :=
  match m with DRAW => true | PAN => false end.

Definition handlePointerUp (props : CanvasBoardProps) (render st : State) : State :=
  let st' :=
    if isDragging render && isDRAW (mode props)
       && (0 <? length (currentPath render))%nat
    then
      setPathsWith
        (fun prev => prev ++ [{| points := currentPath render;
                                 size := brushSize props |}])
        st
    else st in
  setCurrentPath [] (setIsDragging false st').

(** *** Zoom handler

    [canvasRef.current!] is dereferenced without a test: with no canvas the
    handler throws before any state is set, which is the result [None]. *)
Definition handleWheel (dom : DOM) (render st : State) (e : WheelEvent)
    : option State :=
  match imgObj render with
  | None => Some st
  | Some _ =>
      match canvasRef dom with
      | None => None
      | Some rect =>
          let mouseX := wheelX e - left rect in
          let mouseY := wheelY e - top rect in
          let zoomSensitivity := lit 0.001 in
          let delta := - deltaY e * zoomSensitivity in
          let newScale :=
            Math_min (Math_max (lit 0.1) [scale render + delta]) [lit 10] in
          let scaleRatio := newScale / scale render in
          let newOffsetX := mouseX - (mouseX - x (offset render)) * scaleRatio in
          let newOffsetY := mouseY - (mouseY - y (offset render)) * scaleRatio in
          Some (setOffset {| x := newOffsetX; y := newOffsetY |}
                          (setScale newScale st))
      end
  end.

(** *** The off-screen canvas

    A 2D context is its drawing state, its current path (a list of subpaths)
    and the paint operations issued so far. The attributes hold the values
    the component assigns to them. *)
Inductive PaintOp : Type :=
| FillRect (style : string) (rx ry rw rh : num)
| StrokePath (style : string) (width : num) (cap join : string)
             (path : list (list Point)).

Record CanvasRenderingContext2D : Type := {
  fillStyle : string;
  strokeStyle : string;
  lineWidth : num;
  lineCap : string;
  lineJoin : string;
  subpaths : list (list Point);
  painted : list PaintOp
}.

(** The context of a fresh canvas, with the defaults of the platform. *)
Definition freshContext : CanvasRenderingContext2D := {|
  fillStyle := "#000000";
  strokeStyle := "#000000";
  lineWidth := lit 1;
  lineCap := "butt";
  lineJoin := "miter";
  subpaths := [];
  painted := []
|}.

Definition set_fillStyle (v : string) (ctx : CanvasRenderingContext2D) :=
  {| fillStyle := v; strokeStyle := strokeStyle ctx; lineWidth := lineWidth ctx;
     lineCap := lineCap ctx; lineJoin := lineJoin ctx;
     subpaths := subpaths ctx; painted := painted ctx |}.

Definition set_strokeStyle (v : string) (ctx : CanvasRenderingContext2D) :=
  {| fillStyle := fillStyle ctx; strokeStyle := v; lineWidth := lineWidth ctx;
     lineCap := lineCap ctx; lineJoin := lineJoin ctx;
     subpaths := subpaths ctx; painted := painted ctx |}.

Definition set_lineWidth (v : num) (ctx : CanvasRenderingContext2D) :=
  {| fillStyle := fillStyle ctx; strokeStyle := strokeStyle ctx; lineWidth := v;
     lineCap := lineCap ctx; lineJoin := lineJoin ctx;
     subpaths := subpaths ctx; painted := painted ctx |}.

Definition set_lineCap (v : string) (ctx : CanvasRenderingContext2D) :=
  {| fillStyle := fillStyle ctx; strokeStyle := strokeStyle ctx;
     lineWidth := lineWidth ctx; lineCap := v; lineJoin := lineJoin ctx;
     subpaths := subpaths ctx; painted := painted ctx |}.

Definition set_lineJoin (v : string) (ctx : CanvasRenderingContext2D) :=
  {| fillStyle := fillStyle ctx; strokeStyle := strokeStyle ctx;
     lineWidth := lineWidth ctx; lineCap := lineCap ctx; lineJoin := v;
     subpaths := subpaths ctx; painted := painted ctx |}.

Definition set_subpaths (v : list (list Point)) (ctx : CanvasRenderingContext2D) :=
  {| fillStyle := fillStyle ctx; strokeStyle := strokeStyle ctx;
     lineWidth := lineWidth ctx; lineCap := lineCap ctx; lineJoin := lineJoin ctx;
     subpaths := v; painted := painted ctx |}.

Definition paint (op : PaintOp) (ctx : CanvasRenderingContext2D) :=
  {| fillStyle := fillStyle ctx; strokeStyle := strokeStyle ctx;
     lineWidth := lineWidth ctx; lineCap := lineCap ctx; lineJoin := lineJoin ctx;
     subpaths := subpaths ctx; painted := painted ctx ++ [op] |}.

Definition fillRect (rx ry rw rh : num) (ctx : CanvasRenderingContext2D) :=
  paint (FillRect (fillStyle ctx) rx ry rw rh) ctx.

Definition beginPath (ctx : CanvasRenderingContext2D) := set_subpaths [] ctx.

Definition moveTo (px py : num) (ctx : CanvasRenderingContext2D) :=
  set_subpaths (subpaths ctx ++ [[ {| x := px; y := py |} ]]) ctx.

(** [lineTo] extends the last subpath; with no subpath it starts one. *)
Fixpoint extendLast (p : Point) (sub : list (list Point)) : list (list Point) :=
  match sub with
  | [] => [[p]]
  | [s] => [s ++ [p]]
  | s :: rest => s :: extendLast p rest
  end.

Definition lineTo (px py : num) (ctx : CanvasRenderingContext2D) :=
  set_subpaths (extendLast {| x := px; y := py |} (subpaths ctx)) ctx.

Definition stroke (ctx : CanvasRenderingContext2D) :=
  paint (StrokePath (strokeStyle ctx) (lineWidth ctx) (lineCap ctx) (lineJoin ctx)
                    (subpaths ctx)) ctx.

Record HTMLCanvasElement : Type := {
  canvasWidth : num;
  canvasHeight : num;
  context : CanvasRenderingContext2D
}.

(** [toDataURL('image/png')] encodes the bitmap of the canvas. The bitmap is
    determined by the size of the canvas and by the operations painted on
    it, in order; the encoded image is represented by these. *)
Record DataURL : Type := {
  imageWidth : num;
  imageHeight : num;
  imagePaint : list PaintOp
}.

Definition toDataURL (canvas : HTMLCanvasElement) : DataURL :=
  {| imageWidth := canvasWidth canvas;
     imageHeight := canvasHeight canvas;
     imagePaint := painted (context canvas) |}.

(** *** The imperative handle *)

(** The callback of [paths.forEach] in [getMaskDataURL]. *)
Definition strokeMaskPath (ctx : CanvasRenderingContext2D) (path : Path)
    : CanvasRenderingContext2D :=
  match points path with
  | [] => ctx
  | p0 :: rest =>
      let ctx := beginPath ctx in
      let ctx := set_lineWidth (size path) ctx in
      let ctx := moveTo (x p0) (y p0) ctx in
      let ctx := fold_left (fun c p => lineTo (x p) (y p) c) rest ctx in
      stroke ctx
  end.

Definition getMaskDataURL (dom : DOM) (st : State) : option DataURL :=
  match imgObj st with
  | None => None
  | Some img =>
      let maskWidth := width img in
      let maskHeight := height img in
      if negb (getContext2d dom) then None
      else
        let ctx := freshContext in
        let ctx := set_fillStyle "black" ctx in
        let ctx := fillRect (lit 0) (lit 0) maskWidth maskHeight ctx in
        let ctx := set_lineCap "round" ctx in
        let ctx := set_lineJoin "round" ctx in
        let ctx := set_strokeStyle "white" ctx in
        let ctx := fold_left strokeMaskPath (paths st) ctx in
        Some (toDataURL {| canvasWidth := maskWidth; canvasHeight := maskHeight;
                           context := ctx |})
  end.

Definition resetMask (st : State) : State := setPaths [] st.

Definition undo (st : State) : State :=
  setPathsWith (fun prev => slice 0%Z (-1)%Z prev) st.

(** [undo] repeated until the list is empty: the loop
    [while (paths.length > 0) undo()], whose test is the value reported by
    [onMaskChange]. The recursion is on the number of committed strokes. *)
Equations? undoAll (st : State) : State by wf (length (paths st)) lt :=
  undoAll st with inspect (onMaskChange st) => {
    | exist _ true more => undoAll (undo st);
    | exist _ false _ => st }.
Proof.
  unfold onMaskChange in more. apply Nat.ltb_lt in more.
  unfold undo, slice, relativeIndex; simpl.
  rewrite length_firstn, length_skipn. lia.
Qed.

(** *** Events

    One occurrence handled by the component, with the props and the document
    as they are when it is handled. *)
Inductive Event : Type :=
| PointerDown (e : PointerEvent)
| PointerMove (e : PointerEvent)
| PointerUp
| Wheel (e : WheelEvent)
| ImageLoaded (img : HTMLImageElement)
| ImageSrcCleared
| UndoCall
| ResetMaskCall.

Record Input : Type := {
  inProps : CanvasBoardProps;
  inDom : DOM;
  inEvent : Event
}.

(** One event handled by the handlers of the render [render], its updates
    queued on [st]. A handler that throws has set no state. The image-load
    callback and the imperative handle read no state cell. *)
Definition handle (render st : State) (i : Input) : State :=
  match inEvent i with
  | PointerDown e => handlePointerDown (inProps i) (inDom i) render st e
  | PointerMove e => handlePointerMove (inProps i) (inDom i) render st e
  | PointerUp => handlePointerUp (inProps i) render st
  | Wheel e =>
      match handleWheel (inDom i) render st e with Some st' => st' | None => st end
  | ImageLoaded img => onload (inDom i) img st
  | ImageSrcCleared => imageSrcCleared st
  | UndoCall => undo st
  | ResetMaskCall => resetMask st
  end.

(** An event that is rendered before the next one is handled: its handler
    belongs to the render of the state it updates. *)
Definition step (st : State) (i : Input) : State :=
  handle st st i.

(** A sequence of events, each rendered before the next is handled. *)
Definition run (st : State) (inputs : list Input) : State :=
  fold_left step inputs st.

(** The events handled between two renders: all of them by the handlers of
    the render [st], whose updates accumulate until the next render. *)
Definition batch (st : State) (inputs : list Input) : State :=
  fold_left (handle st) inputs st.

(** A sequence of renders, each with the events handled before the next. *)
Definition runBatches (st : State) (renders : list (list Input)) : State :=
  fold_left batch renders st.

(** *** Vocabulary of the specification *)

(** [fitToContainer] as the specification words it: the scale is the least of
    the two fit ratios and 1, times the margin factor, and the offset centres
    the scaled image. *)
Definition fitToContainer (imageWidth imageHeight containerWidth containerHeight : num)
    : num * Point :=
  let marginFactor := lit 0.9 in
  let fit :=
    Math_min (containerWidth / imageWidth) [containerHeight / imageHeight; lit 1]
    * marginFactor in
  (fit, {| x := (containerWidth - imageWidth * fit) / lit 2;
           y := (containerHeight - imageHeight * fit) / lit 2 |}).

Definition isPointerDown (i : Input) : bool :=
  match inEvent i with PointerDown _ => true | _ => false end.

Definition isPointerMove (i : Input) : bool :=
  match inEvent i with PointerMove _ => true | _ => false end.

Definition isPointerUp (i : Input) : bool :=
  match inEvent i with PointerUp => true | _ => false end.

Definition isWheel (i : Input) : bool :=
  match inEvent i with Wheel _ => true | _ => false end.

Definition inMode (m : ToolMode) (i : Input) : bool :=
  match m, mode (inProps i) with
  | DRAW, DRAW | PAN, PAN => true
  | _, _ => false
  end.

(** One pointer gesture, made of a pointer-down, pointer-moves and a
    pointer-up, all handled with the tool mode [m]. The other props and the
    document may differ from one event to the next. *)
Definition isGesture (m : ToolMode) (down : Input) (moves : list Input) (up : Input)
    : bool :=
  isPointerDown down && forallb isPointerMove moves && isPointerUp up
  && forallb (inMode m) (down :: moves ++ [up]).

(** The pointer position of a pointer-down or pointer-move input. *)
Definition pointerPos (i : Input) : Point :=
  match inEvent i with
  | PointerDown e | PointerMove e => getPointerPos (inDom i) e
  | _ => {| x := lit 0; y := lit 0 |}
  end.

(** The offset after a pan: every position visited adds its difference to
    the position before it. *)
Fixpoint panned (off last : Point) (visited : list Point) : Point :=
  match visited with
  | [] => off
  | pos :: rest =>
      panned {| x := x off + (x pos - x last); y := y off + (y pos - y last) |}
             pos rest
  end.

(** A pointer event handled in pan mode. *)
Definition isPanPointer (i : Input) : bool :=
  (isPointerDown i || isPointerMove i || isPointerUp i) && inMode PAN i.

(** An operation on the viewport: a wheel event, or a pointer event handled
    in pan mode. *)
Definition isViewportInput (i : Input) : bool :=
  isWheel i || isPanPointer i.


(** The paint operation the export issues for one stroke. *)
Definition maskStroke (path : Path) : PaintOp :=
  StrokePath "white" (size path) "round" "round" [points path].

Definition hasPoints (path : Path) : bool :=
  (0 <? length (points path))%nat.

(** Two contexts with the same fill style, stroke style, cap and join. *)
Definition samePen (ctx ctx' : CanvasRenderingContext2D) : Prop :=
  fillStyle ctx' = fillStyle ctx /\ strokeStyle ctx' = strokeStyle ctx /\
  lineCap ctx' = lineCap ctx /\ lineJoin ctx' = lineJoin ctx.

(** Two states that differ in nothing but the committed strokes. *)
Definition sameButPaths (st st' : State) : Prop :=
  scale st' = scale st /\ offset st' = offset st /\
  isDragging st' = isDragging st /\ lastPos st' = lastPos st /\
  currentPath st' = currentPath st /\ imgObj st' = imgObj st.

End CanvasBoard.

(** ** Exact arithmetic: reachable states and sample inputs *)

Section ExactDefinitions.

Local Existing Instance Q_Number.
Local Open Scope Q_scope.

(** Two points that denote the same rational coordinates. *)
Definition Point_eq (p q : Point) : Prop := x p == x q /\ y p == y q.

(** An image has a positive natural size, and a container that is laid out
    has a positive client size. *)
Definition positiveSizes (i : Input) : Prop :=
  match inEvent i with
  | ImageLoaded img =>
      0 < width img /\ 0 < height img /\
      forall container, containerRef (inDom i) = Some container ->
        0 < clientWidth container /\ 0 < clientHeight container
  | _ => True
  end.

(** The states the component can be in: the initial one, and the one after
    any event handled in such a state. *)
Inductive reachable : State -> Prop :=
| reachable_initial : reachable initialState
| reachable_step (st : State) (i : Input) :
    reachable st -> positiveSizes i -> reachable (step st i).

(** The new scale [handleWheel] computes from the requested one. *)
Definition clamp (v : Q) : Q := Math_min (Math_max 0.1 [v]) [10].

(** The sum of a list of numbers. *)
Definition total (l : list Q) : Q := fold_right Qplus 0 l.

(** The wheel event at the same place with the opposite [deltaY]. *)
Definition oppositeWheel (e : WheelEvent) : WheelEvent :=
  {| wheelX := wheelX e; wheelY := wheelY e; deltaY := - deltaY e |}.

(** *** Sample inputs *)

Definition sampleContainer : HTMLDivElement :=
  {| clientWidth := 100; clientHeight := 100 |}.

Definition sampleRect : DOMRect := {| left := 0; top := 0 |}.

Definition sampleDom : DOM := {|
  containerRef := Some sampleContainer;
  canvasRef := Some sampleRect;
  getContext2d := true
|}.

Definition screenPoint (px py : Q) : Point := {| x := px; y := py |}.

(** The same document when no 2D context can be obtained. *)
Definition noContextDom : DOM := {|
  containerRef := containerRef sampleDom;
  canvasRef := canvasRef sampleDom;
  getContext2d := false
|}.

Definition sampleImage : HTMLImageElement :=
  {| src := "data:image/png;base64,iVBORw0KGgo="; width := 100; height := 100 |}.

(** An image a hundred times as wide and high as the container. *)
Definition largeImage : HTMLImageElement :=
  {| src := "data:image/png;base64,iVBORw0KGgo="; width := 10000; height := 10000 |}.

Definition sampleProps (m : ToolMode) (brush : Q) : CanvasBoardProps :=
  {| imageSrc := Some (src sampleImage); mode := m; brushSize := brush |}.

Definition sampleInput (m : ToolMode) (brush : Q) (ev : Event) : Input :=
  {| inProps := sampleProps m brush; inDom := sampleDom; inEvent := ev |}.

(** The state once [sampleImage] is loaded in the initial state: the scale
    is 0.9 and the offset (5, 5). *)
Definition imageLoad : Input := sampleInput DRAW 40 (ImageLoaded sampleImage).

Definition loadedState : State := step initialState imageLoad.

Definition largeImageLoad : Input :=
  sampleInput DRAW 40 (ImageLoaded largeImage).

(** A drag in draw mode whose pointer-down is handled with brush size 10 and
    whose move and pointer-up are handled with brush size 20. *)
Definition drawDown : Input := sampleInput DRAW 10 (PointerDown (MouseEvent 50 50)).
Definition drawMove : Input := sampleInput DRAW 20 (PointerMove (MouseEvent 59 50)).
Definition drawUp : Input := sampleInput DRAW 20 PointerUp.

Definition resizedDrag : list Input := drawDown :: [drawMove] ++ [drawUp].

(** The state with the stroke of [resizedDrag] committed. *)
Definition strokedState : State := run loadedState resizedDrag.

(** A drag in pan mode, and a wheel event. *)
Definition panDown : Input := sampleInput PAN 40 (PointerDown (MouseEvent 10 10)).
Definition panMove : Input := sampleInput PAN 40 (PointerMove (MouseEvent 30 25)).
Definition panUp : Input := sampleInput PAN 40 PointerUp.

(** The same drag with a second move, to (50, 40), handled before the first
    one is rendered. *)
Definition panMoveOn : Input := sampleInput PAN 40 (PointerMove (MouseEvent 50 40)).

Definition unrenderedMoves : list (list Input) :=
  [[panDown]; [panMove; panMoveOn]; [panUp]].

Definition sampleWheel : WheelEvent :=
  {| wheelX := 40; wheelY := 30; deltaY := -500 |}.

Definition panAndZoom : list Input :=
  panDown :: [panMove] ++ [panUp] ++ [sampleInput PAN 40 (Wheel sampleWheel)].

(** The two moves rendered one by one, with a render that handles nothing
    in between. *)
Definition renderedMoves : list (list Input) := [[panMove]; []; [panMoveOn]].

(** The pan drag started: its pointer-down is rendered. *)
Definition panStarted : State := step loadedState panDown.


(** A pan drag and a zoom in two renders. *)
Definition panAndZoomRenders : list (list Input) :=
  [[panDown; panMove]; [sampleInput PAN 40 (Wheel sampleWheel); panUp]].

End ExactDefinitions.

(** ** Binary64: sample inputs *)

Section Binary64Definitions.

Local Existing Instance float_Number.

Definition js (q : Q) : float := lit q.

Definition jsDom (context2d : bool) : DOM := {|
  containerRef := Some {| clientWidth := js 100; clientHeight := js 100 |};
  canvasRef := Some {| left := js 0; top := js 0 |};
  getContext2d := context2d
|}.

Definition jsImage (side : Q) : HTMLImageElement :=
  {| src := "data:image/png;base64,iVBORw0KGgo="; width := js side; height := js side |}.

Definition jsInput (m : ToolMode) (brush : Q) (ev : Event) : Input :=
  {| inProps := {| imageSrc := Some (src (jsImage 100)); mode := m;
                   brushSize := js brush |};
     inDom := jsDom true;
     inEvent := ev |}.

(** A 100 x 100 image loaded in a 100 x 100 container, and the drag of
    [resizedDrag] on it. *)
Definition jsLoaded : State :=
  step initialState (jsInput DRAW 40 (ImageLoaded (jsImage 100))).

Definition jsDrag : list Input :=
  [ jsInput DRAW 10 (PointerDown (MouseEvent (js 50) (js 50)));
    jsInput DRAW 20 (PointerMove (MouseEvent (js 59) (js 50)));
    jsInput DRAW 20 PointerUp ].

(** A wheel event at the screen point (40, 30) that zooms out by 0.1. *)
Definition jsWheel : WheelEvent :=
  {| wheelX := js 40; wheelY := js 30; deltaY := js 100 |}.

Definition jsZoomed : State :=
  step jsLoaded (jsInput DRAW 40 (Wheel jsWheel)).

Definition jsAnchor : Point := {| x := js 40; y := js 30 |}.

End Binary64Definitions.

(** ** The live preview (the [draw] callback) *)

Section Preview.

Context {N : Number}.
Local Open Scope num_scope.

(** A call that changes the current transformation of a context. *)
Inductive TransformCall : Type :=
| Translate (tx ty : num)
| Scale (sx sy : num).

(** The image of a point of user space: the call made last applies first. *)
Definition applyTransform (t : TransformCall) (p : Point) : Point :=
  match t with
  | Translate tx ty => {| x := x p + tx; y := y p + ty |}
  | Scale sx sy => {| x := x p * sx; y := y p * sy |}
  end.

Definition toDevice (calls : list TransformCall) (p : Point) : Point :=
  fold_right applyTransform p calls.

(** What is painted on the visible canvas, with the transformation in effect
    when it is painted. *)
Inductive ScreenOp : Type :=
| ClearRect (rx ry rw rh : num)
| DrawImage (calls : list TransformCall) (img : HTMLImageElement) (dx dy : num)
| StrokeLine (calls : list TransformCall) (style : string) (width : num)
             (cap join : string) (path : list (list Point)).

(** The context of the visible canvas: the pen (styles and current path, as
    for the off-screen canvas), the transformation as the list of calls made
    so far, the stack of [save], and what was painted. *)
Record ScreenContext : Type := {
  pen : CanvasRenderingContext2D;
  transform : list TransformCall;
  saved : list (list TransformCall * CanvasRenderingContext2D);
  screen : list ScreenOp
}.

Definition withPen (f : CanvasRenderingContext2D -> CanvasRenderingContext2D)
    (ctx : ScreenContext) : ScreenContext :=
  {| pen := f (pen ctx); transform := transform ctx;
     saved := saved ctx; screen := screen ctx |}.

Definition paintScreen (op : ScreenOp) (ctx : ScreenContext) : ScreenContext :=
  {| pen := pen ctx; transform := transform ctx;
     saved := saved ctx; screen := screen ctx ++ [op] |}.

Definition transformBy (t : TransformCall) (ctx : ScreenContext) : ScreenContext :=
  {| pen := pen ctx; transform := transform ctx ++ [t];
     saved := saved ctx; screen := screen ctx |}.

Definition save (ctx : ScreenContext) : ScreenContext :=
  {| pen := pen ctx; transform := transform ctx;
     saved := (transform ctx, pen ctx) :: saved ctx; screen := screen ctx |}.

(** [restore] brings back the transformation and the styles saved last; the
    current path is not part of what is saved. With an empty stack it does
    nothing. *)
Definition restore (ctx : ScreenContext) : ScreenContext :=
  match saved ctx with
  | [] => ctx
  | (calls, styles) :: rest =>
      {| pen := set_subpaths (subpaths (pen ctx)) styles;
         transform := calls; saved := rest; screen := screen ctx |}
  end.

Definition clearRect (rx ry rw rh : num) (ctx : ScreenContext) : ScreenContext :=
  paintScreen (ClearRect rx ry rw rh) ctx.

Definition drawImage (img : HTMLImageElement) (dx dy : num) (ctx : ScreenContext)
    : ScreenContext :=
  paintScreen (DrawImage (transform ctx) img dx dy) ctx.

Definition strokeScreen (ctx : ScreenContext) : ScreenContext :=
  paintScreen (StrokeLine (transform ctx) (strokeStyle (pen ctx)) (lineWidth (pen ctx))
                          (lineCap (pen ctx)) (lineJoin (pen ctx)) (subpaths (pen ctx)))
              ctx.

(** Setting the width of a canvas resets its bitmap and its context. *)
Definition resetContext : ScreenContext :=
  {| pen := freshContext; transform := []; saved := []; screen := [] |}.

(** One frame: the size given to the canvas and what was painted on it. *)
Record Frame : Type := {
  frameWidth : num;
  frameHeight : num;
  frameOps : list ScreenOp
}.

(** The local function [drawPath] of [draw]. *)
Definition drawPath (st : State) (ctx : ScreenContext) (path : Path) : ScreenContext :=
  match points path with
  | [] => ctx
  | p0 :: rest =>
      let ctx := withPen beginPath ctx in
      let ctx := withPen (set_lineWidth (size path / scale st)) ctx in
      let ctx := withPen (moveTo (x p0) (y p0)) ctx in
      let ctx := fold_left (fun c p => withPen (lineTo (x p) (y p)) c) rest ctx in
      strokeScreen ctx
  end.

(** [draw]. [context2d] tells whether the visible canvas yields a 2D
    context. The result is [None] when the callback returns before it
    touches the canvas. *)
Definition draw (props : CanvasBoardProps) (dom : DOM) (context2d : bool) (st : State)
    : option Frame :=
  match canvasRef dom, containerRef dom with
  | Some _, Some container =>
      if negb context2d then None
      else
        let canvasW := clientWidth container in
        let canvasH := clientHeight container in
        let ctx := resetContext in
        let ctx := clearRect (lit 0) (lit 0) canvasW canvasH ctx in
        let ctx :=
          match imgObj st with
          | None => ctx
          | Some img =>
              let ctx := save ctx in
              let ctx := transformBy (Translate (x (offset st)) (y (offset st))) ctx in
              let ctx := transformBy (Scale (scale st) (scale st)) ctx in
              let ctx := drawImage img (lit 0) (lit 0) ctx in
              let ctx := withPen (set_lineCap "round") ctx in
              let ctx := withPen (set_lineJoin "round") ctx in
              let ctx := withPen (set_strokeStyle "rgba(239, 68, 68, 0.5)") ctx in
              let ctx := fold_left (drawPath st) (paths st) ctx in
              let ctx :=
                if (0 <? length (currentPath st))%nat
                then drawPath st ctx {| points := currentPath st; size := brushSize props |}
                else ctx in
              restore ctx
          end in
        Some {| frameWidth := canvasW; frameHeight := canvasH; frameOps := screen ctx |}
  | _, _ => None
  end.

(** *** Vocabulary for the preview *)

(** The transformation [draw] sets up: translate by the offset, then scale. *)
Definition viewTransform (st : State) : list TransformCall :=
  [Translate (x (offset st)) (y (offset st)); Scale (scale st) (scale st)].

(** The stroke [drawPath] paints for a path. *)
Definition previewStroke (st : State) (path : Path) : ScreenOp :=
  StrokeLine (viewTransform st) "rgba(239, 68, 68, 0.5)" (size path / scale st)
             "round" "round" [points path].

(** The in-progress stroke, as [draw] passes it to [drawPath]. *)
Definition candidate (props : CanvasBoardProps) (st : State) : Path :=
  {| points := currentPath st; size := brushSize props |}.

(** The polyline of a paint operation, if it is a stroke. *)
Definition exportedLine (op : PaintOp) : option (list (list Point)) :=
  match op with
  | StrokePath _ _ _ _ path => Some path
  | FillRect _ _ _ _ _ => None
  end.

Definition previewedLine (op : ScreenOp) : option (list (list Point)) :=
  match op with
  | StrokeLine _ _ _ _ _ path => Some path
  | _ => None
  end.

(** The polylines stroked by a list of operations, in order. *)
Definition exportedLines (ops : list PaintOp) : list (list (list Point)) :=
  flat_map (fun op => match exportedLine op with Some l => [l] | None => [] end) ops.

Definition previewedLines (ops : list ScreenOp) : list (list (list Point)) :=
  flat_map (fun op => match previewedLine op with Some l => [l] | None => [] end) ops.

(** The width on the device of a line of width [w] in user space, under
    transformations that scale both axes alike. *)
Definition deviceWidth (calls : list TransformCall) (w : num) : num :=
  fold_right (fun t acc => match t with Translate _ _ => acc | Scale sx _ => acc * sx end)
             w calls.

(** *** Vocabulary for the states *)

(** Every committed stroke has a point, and there is a candidate only while
    a drag is in progress. *)
Definition wellFormed (st : State) : Prop :=
  Forall (fun path => hasPoints path = true) (paths st) /\
  (isDragging st = false -> currentPath st = []).

Definition isPointerOrWheel (i : Input) : bool :=
  isPointerDown i || isPointerMove i || isPointerUp i || isWheel i.

End Preview.

(** ** The before/after slider (src/components/ImageCompare.tsx) *)

Module ImageCompare.

Section Component.

Context {N : Number}.
Local Open Scope num_scope.

(** [getBoundingClientRect()] of the container of the two images. *)
Record Rect : Type := { rectLeft : num; rectWidth : num }.

Record State : Type := {
  sliderPosition : num;
  isResizing : bool
}.

Definition initialState : State :=
  {| sliderPosition := lit 50; isResizing := false |}.

Definition setSliderPosition (v : num) (st : State) : State :=
  {| sliderPosition := v; isResizing := isResizing st |}.

Definition setIsResizing (v : bool) (st : State) : State :=
  {| sliderPosition := sliderPosition st; isResizing := v |}.

Definition handleMouseDown (st : State) : State := setIsResizing true st.

Definition handleMouseUp (st : State) : State := setIsResizing false st.

(** [containerRef] is [containerRef.current], through its bounding
    rectangle. *)
Definition handleMouseMove (containerRef : option Rect) (st : State) (clientX : num)
    : State :=
  match containerRef with
  | Some rect =>
      if negb (isResizing st) then st
      else
        let px := Math_max (lit 0) [Math_min (clientX - rectLeft rect) [rectWidth rect]] in
        let percentage := (px / rectWidth rect) * lit 100 in
        setSliderPosition percentage st
  | None => st
  end.

(** The mouse-down comes from the handle of the slider; moves and mouse-up
    come from the window, where the effect on [isResizing] keeps the
    listeners registered only while a resize is in progress. *)
Inductive Event : Type :=
| MouseDown
| MouseMove (containerRef : option Rect) (clientX : num)
| MouseUp.

Definition step (st : State) (ev : Event) : State :=
  match ev with
  | MouseDown => handleMouseDown st
  | MouseMove containerRef clientX =>
      if isResizing st then handleMouseMove containerRef st clientX else st
  | MouseUp => if isResizing st then handleMouseUp st else st
  end.

Definition run (st : State) (events : list Event) : State :=
  fold_left step events st.

Definition isMouseDown (ev : Event) : bool :=
  match ev with MouseDown => true | _ => false end.

End Component.

(** In exact arithmetic: a container that is laid out has a positive width. *)
Definition laidOut (ev : @Event Q_Number) : Prop :=
  match ev with
  | MouseMove (Some rect) _ => (0 < rectWidth rect)%Q
  | _ => True
  end.

End ImageCompare.

(** ** The edit service (src/services/geminiService.ts) *)

Module GeminiService.

Local Open Scope string_scope.

(** *** Regular expressions on data URLs *)

(** The class [\w]: the letters, the digits and the underscore. *)
Definition isWordChar (c : ascii) : bool :=
  let n := N_of_ascii c in
  ((48 <=? n) && (n <=? 57) || (65 <=? n) && (n <=? 90)
   || (97 <=? n) && (n <=? 122) || (n =? 95))%N.

Fixpoint isWord (s : string) : bool :=
  match s with
  | EmptyString => true
  | String c rest => isWordChar c && isWord rest
  end.

(** The string that follows [prefix] in [s], if [s] starts with it. *)
Fixpoint stripPrefix (prefix s : string) : option string :=
  match prefix, s with
  | EmptyString, _ => Some s
  | String a prefix', String b s' =>
      if Ascii.eqb a b then stripPrefix prefix' s' else None
  | String _ _, EmptyString => None
  end.

(** The longest run of word characters at the start of [s], and the rest:
    what a greedy [\w*] takes. *)
Fixpoint spanWord (s : string) : string * string :=
  match s with
  | String c rest =>
      if isWordChar c
      then let (word, after) := spanWord rest in (String c word, after)
      else (EmptyString, s)
  | EmptyString => (EmptyString, EmptyString)
  end.

(** A match of [/^data:image\/(\w+);base64,/]: the word matched by [\w+] and
    what follows the match. The character after the word must be [;], which
    is no word character, so [\w+] can only stand for the longest run. *)
Definition matchImageDataURL (s : string) : option (string * string) :=
  match stripPrefix "data:image/" s with
  | None => None
  | Some s1 =>
      let (word, s2) := spanWord s1 in
      match word with
      | EmptyString => None
      | String _ _ =>
          match stripPrefix ";base64," s2 with
          | None => None
          | Some after => Some (word, after)
          end
      end
  end.

(** [s.replace(/^data:image\/\w+;base64,/, "")]. *)
Definition stripDataURLPrefix (s : string) : string :=
  match matchImageDataURL s with
  | Some (_, after) => after
  | None => s
  end.

(** *** The request *)

Definition MODEL_NAME : string := "gemini-2.5-flash-image".

Definition instruction : string :=
  "You are an expert image editor. Use the second image provided as a mask. The white areas in the mask indicate where watermarks or unwanted objects are located in the first image. Remove these watermarks/objects seamlessly and fill the area to match the surrounding background texture and lighting. Output ONLY the edited image.".

Inductive Part : Type :=
| TextPart (text : string)
| InlineData (mimeType : string) (data : string).

Record Request : Type := {
  model : string;
  parts : list Part
}.

(** The argument of [ai.models.generateContent]. *)
Definition buildRequest (originalImageBase64 maskImageBase64 : string) : Request :=
  let mimeType :=
    match matchImageDataURL originalImageBase64 with
    | Some (word, _) => "image/" ++ word
    | None => "image/png"
    end in
  let cleanOriginal := stripDataURLPrefix originalImageBase64 in
  let cleanMask := stripDataURLPrefix maskImageBase64 in
  {| model := MODEL_NAME;
     parts := [ TextPart instruction;
                InlineData mimeType cleanOriginal;
                InlineData "image/png" cleanMask ] |}.

(** *** The response *)

Record Blob : Type := {
  blobMimeType : option string;
  blobData : option string
}.

Record ResponsePart : Type := { inlineData : option Blob }.

Record Content : Type := { contentParts : option (list ResponsePart) }.

Record Candidate : Type := { content : option Content }.

Record Response : Type := { candidates : option (list Candidate) }.

(** A string is falsy when it is undefined or empty. *)
Definition orDefault (o : option string) (default : string) : string :=
  match o with
  | Some (String c rest) => String c rest
  | _ => default
  end.

(** The loop over the parts: the first part with inline data returns. *)
Fixpoint firstImage (responseParts : list ResponsePart) : option string :=
  match responseParts with
  | [] => None
  | part :: rest =>
      match inlineData part with
      | Some {| blobMimeType := mime; blobData := Some (String c data) |} =>
          let responseMimeType := orDefault mime "image/png" in
          Some ("data:" ++ responseMimeType ++ ";base64," ++ String c data)
      | _ => firstImage rest
      end
  end.

(** How a call ends: with a value, or with what it throws. [E] is what the
    client library rejects with. *)
Inductive Failure (E : Type) : Type :=
| ApiError (e : E)
| TypeError
| NoImageGenerated.

Arguments TypeError {E}.
Arguments NoImageGenerated {E}.

Inductive Outcome (E A : Type) : Type :=
| Returned (a : A)
| Thrown (failure : Failure E).

Arguments Returned {E A} a.
Arguments Thrown {E A} failure.

(** Reading an attribute of [undefined] throws a [TypeError]. *)
Definition extractImage {E : Type} (response : Response) : Outcome E string :=
  match candidates response with
  | None => Thrown NoImageGenerated
  | Some [] => Thrown TypeError
  | Some (first :: _) =>
      match content first with
      | None => Thrown TypeError
      | Some c =>
          match contentParts c with
          | None => Thrown NoImageGenerated
          | Some responseParts =>
              match firstImage responseParts with
              | Some url => Returned url
              | None => Thrown NoImageGenerated
              end
          end
      end
  end.

(** [removeWatermark]. [generateContent] is the call of the client library:
    it resolves with a response or rejects. What is thrown in the [try] is
    logged and thrown again. *)
Definition removeWatermark {E : Type} (generateContent : Request -> E + Response)
    (originalImageBase64 maskImageBase64 : string) : Outcome E string :=
  match generateContent (buildRequest originalImageBase64 maskImageBase64) with
  | inl e => Thrown (ApiError e)
  | inr response => extractImage response
  end.

(** *** Vocabulary *)

(** A data URL of an image whose subtype is a word. *)
Definition imageDataURL (subtype data : string) : string :=
  "data:image/" ++ subtype ++ ";base64," ++ data.

(** A response with one candidate whose parts are [responseParts]. *)
Definition responseWith (responseParts : list ResponsePart) : Response :=
  {| candidates :=
       Some [ {| content := Some {| contentParts := Some responseParts |} |} ] |}.

Definition imagePart (mime data : string) : ResponsePart :=
  {| inlineData := Some {| blobMimeType := Some mime; blobData := Some data |} |}.

(** A part the loop passes over: no inline data, or data that is undefined
    or empty. *)
Definition hasNoData (part : ResponsePart) : bool :=
  match inlineData part with
  | Some {| blobMimeType := _; blobData := Some (String _ _) |} => false
  | _ => true
  end.

End GeminiService.

(** ** The application (src/App.tsx) *)

Module App.

Section Application.

Context {N : Number}.
Local Open Scope string_scope.

Record AppState : Type := {
  imageSrc : option string;
  resultImage : option string;
  mode : ToolMode;
  brushSize : num;
  isProcessing : bool;
  hasMask : bool;
  showCompare : bool
}.

Definition initialState : AppState := {|
  imageSrc := None;
  resultImage := None;
  mode := DRAW;
  brushSize := lit 40;
  isProcessing := false;
  hasMask := false;
  showCompare := false
|}.

Definition setImageSrc (v : option string) (app : AppState) : AppState :=
  {| imageSrc := v; resultImage := resultImage app; mode := mode app;
     brushSize := brushSize app; isProcessing := isProcessing app;
     hasMask := hasMask app; showCompare := showCompare app |}.

Definition setResultImage (v : option string) (app : AppState) : AppState :=
  {| imageSrc := imageSrc app; resultImage := v; mode := mode app;
     brushSize := brushSize app; isProcessing := isProcessing app;
     hasMask := hasMask app; showCompare := showCompare app |}.

Definition setIsProcessing (v : bool) (app : AppState) : AppState :=
  {| imageSrc := imageSrc app; resultImage := resultImage app; mode := mode app;
     brushSize := brushSize app; isProcessing := v;
     hasMask := hasMask app; showCompare := showCompare app |}.

Definition setHasMask (v : bool) (app : AppState) : AppState :=
  {| imageSrc := imageSrc app; resultImage := resultImage app; mode := mode app;
     brushSize := brushSize app; isProcessing := isProcessing app;
     hasMask := v; showCompare := showCompare app |}.

Definition setShowCompare (v : bool) (app : AppState) : AppState :=
  {| imageSrc := imageSrc app; resultImage := resultImage app; mode := mode app;
     brushSize := brushSize app; isProcessing := isProcessing app;
     hasMask := hasMask app; showCompare := v |}.

(** A string that is neither [null] nor empty, which is what a test on a
    string lets through. *)
Definition truthyString (o : option string) : option string :=
  match o with
  | Some (String c rest) => Some (String c rest)
  | _ => None
  end.

(** What one run of [handleProcess] leaves: the state after it, the request
    sent to the service if one was sent, and whether the alert was shown. *)
Record Processed : Type := {
  after : AppState;
  sent : option GeminiService.Request;
  alerted : bool
}.

(** [handleProcess], run to its end. [board] is the state of the canvas
    behind [canvasRef.current], if the canvas is mounted; [encode] is the
    string [toDataURL] returns for a mask; [generateContent] is the call of
    the client library. *)
Definition handleProcess {E : Type}
    (generateContent : GeminiService.Request -> E + GeminiService.Response)
    (encode : DataURL -> string) (dom : DOM) (board : option State)
    (app : AppState) : Processed :=
  let unchanged := {| after := app; sent := None; alerted := false |} in
  match truthyString (imageSrc app), board with
  | Some src, Some boardState =>
      match truthyString (option_map encode (getMaskDataURL dom boardState)) with
      | None => unchanged
      | Some maskData =>
          let app := setIsProcessing true app in
          match GeminiService.removeWatermark generateContent src maskData with
          | GeminiService.Returned result =>
              let app := setResultImage (Some result) app in
              let app := setShowCompare true app in
              {| after := setIsProcessing false app;
                 sent := Some (GeminiService.buildRequest src maskData);
                 alerted := false |}
          | GeminiService.Thrown _ =>
              {| after := setIsProcessing false app;
                 sent := Some (GeminiService.buildRequest src maskData);
                 alerted := true |}
          end
      end
  | _, _ => unchanged
  end.

(** [handleApply]: the state after it, and the state of the canvas after
    [canvasRef.current?.resetMask()]. *)
Definition handleApply (board : option State) (app : AppState)
    : AppState * option State :=
  match truthyString (resultImage app) with
  | Some result =>
      let app := setImageSrc (Some result) app in
      let app := setResultImage None app in
      let app := setShowCompare false app in
      (app, option_map resetMask board)
  | None => (app, board)
  end.

Definition handleResetImage (app : AppState) : AppState :=
  setShowCompare false (setHasMask false (setResultImage None (setImageSrc None app))).

(** The extension [handleDownload] gives to the file. *)
Definition downloadExtension (url : string) : string :=
  match GeminiService.matchImageDataURL url with
  | Some (word, _) => if String.eqb word "jpeg" then "jpg" else word
  | None => "png"
  end.

(** [handleDownload]: the address and the name of the file the link is
    clicked with, if it is clicked. [now] is [Date.now()] in decimal. *)
Definition handleDownload (now : string) (app : AppState) : option (string * string) :=
  let url :=
    match truthyString (resultImage app) with
    | Some result => result
    | None => match truthyString (imageSrc app) with Some src => src | None => "" end
    end in
  match url with
  | EmptyString => None
  | String _ _ =>
      Some (url, "watermark-removed-" ++ now ++ "." ++ downloadExtension url)
  end.

End Application.

End App.

(** ** Sample inputs for the further properties *)

Section MoreSamples.

Local Existing Instance Q_Number.
Local Open Scope Q_scope.

(** Everything [strokedState] has handled since the component was mounted. *)
Definition sampleHistory : list Input := imageLoad :: resizedDrag.


(** The stroke committed in [strokedState], as the preview paints it. *)
Definition sampleStroke : Path := hd {| points := []; size := 0 |} (paths strokedState).

Definition sampleSliderRect : ImageCompare.Rect :=
  {| ImageCompare.rectLeft := 100; ImageCompare.rectWidth := 400 |}.

Definition sliderDrag : list ImageCompare.Event :=
  [ ImageCompare.MouseDown;
    ImageCompare.MouseMove (Some sampleSliderRect) 300;
    ImageCompare.MouseUp ].

Definition sampleOriginal : string := GeminiService.imageDataURL "jpeg" "AAAA".

Definition sampleMaskURL : string := GeminiService.imageDataURL "png" "BBBB".

(** An answer with a text part and then an image. *)
Definition sampleAnswer : GeminiService.Response :=
  GeminiService.responseWith
    ([ {| GeminiService.inlineData := None |} ]
     ++ GeminiService.imagePart "image/webp" "CCCC" :: []).

(** An answer without any image. *)
Definition emptyAnswer : GeminiService.Response :=
  GeminiService.responseWith [ {| GeminiService.inlineData := None |} ].

Definition answering (response : GeminiService.Response)
    : GeminiService.Request -> string + GeminiService.Response :=
  fun _ => inr response.

Definition failing (problem : string)
    : GeminiService.Request -> string + GeminiService.Response :=
  fun _ => inl problem.

(** A browser that encodes every mask with the same payload. *)
Definition samplePayload : DataURL -> string := fun _ => "BBBB"%string.

Definition sampleEncode : DataURL -> string :=
  fun mask => GeminiService.imageDataURL "png" (samplePayload mask).

(** The application with [sampleOriginal] opened. *)
Definition sampleApp : App.AppState :=
  App.setImageSrc (Some sampleOriginal) App.initialState.

(** The application after an edit of [sampleOriginal] returned a WebP image. *)
Definition editedApp : App.AppState :=
  App.setShowCompare true
    (App.setResultImage (Some "data:image/webp;base64,CCCC"%string) sampleApp).

End MoreSamples.

(** ** Properties for every reading of the numbers *)

Section Properties.

Context {N : Number}.
Local Open Scope num_scope.

(** *** Arrays *)

Lemma slice_drop_last (A : Type) (l : list A) :
  slice 0 (-1) l = removelast l.
Proof.
  unfold slice, relativeIndex.
  change (0 <? 0)%Z with false. change (-1 <? 0)%Z with true. cbv iota.
  rewrite removelast_firstn_len.
  replace (Z.to_nat (Z.min 0 (Z.of_nat (length l)))) with 0%nat by lia.
  simpl skipn. f_equal. lia.
Qed.

Lemma removelast_snoc (A : Type) (l : list A) (a : A) :
  removelast (l ++ [a]) = l.
Proof. apply removelast_last. Qed.

Lemma last_cons_default (A : Type) (l : list A) :
  forall a d : A, List.last (a :: l) d = List.last l a.
Proof.
  induction l as [|b l IH]; intros a d; [reflexivity|].
  change (List.last (a :: b :: l) d) with (List.last (b :: l) d).
  rewrite (IH b d), (IH b a). reflexivity.
Qed.

Lemma last_map_apply (A B : Type) (f : A -> B) (l : list A) :
  forall d : A, List.last (map f l) (f d) = f (List.last l d).
Proof.
  induction l as [|a l IH]; intros d; [reflexivity|].
  destruct l as [|b l]; [reflexivity|].
  change (List.last (map f (a :: b :: l)) (f d)) with (List.last (map f (b :: l)) (f d)).
  change (List.last (a :: b :: l) d) with (List.last (b :: l) d).
  apply IH.
Qed.

(** *** Sequences of events *)

Lemma run_snoc (st : State) (inputs : list Input) (i : Input) :
  run st (inputs ++ [i]) = step (run st inputs) i.
Proof. unfold run. rewrite fold_left_app. reflexivity. Qed.

Lemma run_cons (st : State) (i : Input) (inputs : list Input) :
  run st (i :: inputs) = run (step st i) inputs.
Proof. reflexivity. Qed.

Lemma runBatches_cons (st : State) (inputs : list Input) (renders : list (list Input)) :
  runBatches st (inputs :: renders) = runBatches (batch st inputs) renders.
Proof. reflexivity. Qed.

Lemma runBatches_snoc (st : State) (renders : list (list Input)) (inputs : list Input) :
  runBatches st (renders ++ [inputs]) = batch (runBatches st renders) inputs.
Proof. unfold runBatches. rewrite fold_left_app. reflexivity. Qed.

Lemma run_app (inputs more : list Input) (st : State) :
  run st (inputs ++ more) = run (run st inputs) more.
Proof. unfold run. apply fold_left_app. Qed.

(** A render that handles at most one event is a step of [run]. *)
Lemma batch_short (st : State) (inputs : list Input) :
  (length inputs <= 1)%nat -> batch st inputs = run st inputs.
Proof.
  destruct inputs as [|i [|j inputs]]; simpl; intros Hlen;
    [reflexivity|reflexivity|lia].
Qed.

Lemma runBatches_short (renders : list (list Input)) :
  forall st : State,
    Forall (fun inputs => (length inputs <= 1)%nat) renders ->
    runBatches st renders = run st (concat renders).
Proof.
  induction renders as [|inputs renders IH]; intros st Hshort; [reflexivity|].
  inversion Hshort as [|? ? Hlen Hrest]; subst.
  rewrite runBatches_cons. simpl concat.
  rewrite run_app, batch_short by exact Hlen. apply IH. exact Hrest.
Qed.

Lemma isGesture_inv (m : ToolMode) (down : Input) (moves : list Input) (up : Input) :
  isGesture m down moves up = true ->
  isPointerDown down = true /\ inMode m down = true /\
  forallb isPointerMove moves = true /\ forallb (inMode m) moves = true /\
  isPointerUp up = true /\ inMode m up = true.
Proof.
  unfold isGesture. rewrite !andb_true_iff. simpl.
  rewrite andb_true_iff, forallb_app. simpl.
  rewrite !andb_true_iff. tauto.
Qed.

Lemma inMode_eq (m : ToolMode) (i : Input) :
  inMode m i = true -> mode (inProps i) = m.
Proof.
  unfold inMode. destruct m, (mode (inProps i)); congruence.
Qed.

(** *** Pointer gestures *)

Ltac inputKind i :=
  destruct i as [iprops idom [e|e| |e|img| | |]]; simpl in *; try discriminate.

Lemma pointerDown_draw (st : State) (i : Input) :
  isPointerDown i = true -> inMode DRAW i = true -> truthy (imgObj st) = true ->
  isDragging (step st i) = true /\
  currentPath (step st i) = [getCanvasCoords st (pointerPos i)] /\
  paths (step st i) = paths st /\ imgObj (step st i) = imgObj st.
Proof.
  intros Hdown Hmode Himg. apply inMode_eq in Hmode.
  inputKind i. unfold step, handle, handlePointerDown, pointerPos; simpl.
  destruct (imgObj st) eqn:E; [|discriminate].
  rewrite Hmode. simpl. rewrite E. auto.
Qed.

Lemma pointerMoves_draw (moves : list Input) :
  forall st : State,
    forallb isPointerMove moves = true -> forallb (inMode DRAW) moves = true ->
    isDragging st = true -> truthy (imgObj st) = true ->
    isDragging (run st moves) = true /\ imgObj (run st moves) = imgObj st /\
    paths (run st moves) = paths st /\
    length (currentPath (run st moves)) = (length (currentPath st) + length moves)%nat.
Proof.
  induction moves as [|i moves IH]; intros st Hmoves Hmodes Hdrag Himg.
  - simpl. auto with arith.
  - cbn [forallb] in Hmoves, Hmodes. apply andb_true_iff in Hmoves as [Hi Hmoves].
    apply andb_true_iff in Hmodes as [Hm Hmodes]. apply inMode_eq in Hm.
    rewrite run_cons.
    assert (Hstep : isDragging (step st i) = true /\ imgObj (step st i) = imgObj st /\
                    paths (step st i) = paths st /\
                    length (currentPath (step st i)) = S (length (currentPath st))).
    { inputKind i. unfold step, handle, handlePointerMove; simpl.
      rewrite Hdrag, Himg, Hm. simpl. rewrite length_app. simpl.
      repeat split; auto. lia. }
    destruct Hstep as (Hd & Hi' & Hp & Hl).
    destruct (IH (step st i)) as (IHd & IHi & IHp & IHl); auto.
    { rewrite Hi'. exact Himg. }
    rewrite IHi, IHp, IHl, Hi', Hp, Hl. simpl.
    repeat split; auto; lia.
Qed.

Lemma pointerUp_commit (st : State) (i : Input) :
  isPointerUp i = true -> inMode DRAW i = true ->
  isDragging st = true -> (0 < length (currentPath st))%nat ->
  paths (step st i) =
    paths st ++ [{| points := currentPath st; size := brushSize (inProps i) |}].
Proof.
  intros Hup Hmode Hdrag Hlen. apply inMode_eq in Hmode.
  inputKind i. unfold step, handle, handlePointerUp; simpl.
  rewrite Hdrag, Hmode. simpl.
  apply Nat.ltb_lt in Hlen. rewrite Hlen. reflexivity.
Qed.

(** A whole drag in draw mode on a loaded image. *)
Lemma drawGesture_commit (st : State) (down : Input) (moves : list Input) (up : Input) :
  isGesture DRAW down moves up = true -> truthy (imgObj st) = true ->
  exists pts : list Point,
    paths (run st (down :: moves ++ [up])) =
      paths st ++ [{| points := pts; size := brushSize (inProps up) |}]
    /\ length pts = S (length moves).
Proof.
  intros Hg Himg.
  destruct (isGesture_inv _ _ _ _ Hg) as (Hd & Hdm & Hm & Hmm & Hu & Hum).
  destruct (pointerDown_draw st down Hd Hdm Himg) as (Hdrag & Hcur & Hpaths & Himg1).
  destruct (pointerMoves_draw moves (step st down) Hm Hmm Hdrag) as (Hdrag2 & _ & Hpaths2 & Hlen).
  { rewrite Himg1. exact Himg. }
  rewrite Hcur in Hlen. simpl in Hlen.
  exists (currentPath (run (step st down) moves)).
  rewrite run_cons, run_snoc.
  rewrite pointerUp_commit; auto; [|lia].
  rewrite Hpaths2, Hpaths. auto.
Qed.





(** *** Pan gestures and viewport operations *)

Lemma panPointer_frame (st : State) (i : Input) :
  isPanPointer i = true ->
  paths (step st i) = paths st /\ scale (step st i) = scale st /\
  imgObj (step st i) = imgObj st /\
  (currentPath st = [] -> currentPath (step st i) = []).
Proof.
  unfold isPanPointer. rewrite andb_true_iff. intros [Hkind Hmode].
  apply inMode_eq in Hmode.
  inputKind i; unfold step, handle; simpl.
  - unfold handlePointerDown.
    destruct (imgObj st) eqn:E; rewrite ?Hmode; simpl; repeat split; auto.
  - unfold handlePointerMove.
    destruct (negb (isDragging st) || negb (truthy (imgObj st)));
      rewrite ?Hmode; simpl; repeat split; auto.
  - unfold handlePointerUp. rewrite Hmode. simpl.
    rewrite andb_false_r. simpl. repeat split; auto.
Qed.

Lemma panPointers_frame (inputs : list Input) :
  forall st : State,
    forallb isPanPointer inputs = true ->
    paths (run st inputs) = paths st /\ scale (run st inputs) = scale st /\
    imgObj (run st inputs) = imgObj st /\
    (currentPath st = [] -> currentPath (run st inputs) = []).
Proof.
  induction inputs as [|i inputs IH]; intros st Hall.
  - simpl. auto.
  - cbn [forallb] in Hall. apply andb_true_iff in Hall as [Hi Hall].
    rewrite run_cons.
    destruct (panPointer_frame st i Hi) as (Hp & Hs & Him & Hc).
    destruct (IH (step st i) Hall) as (IHp & IHs & IHim & IHc).
    rewrite IHp, IHs, IHim, Hp, Hs, Him. repeat split; auto.
Qed.

Lemma moves_panPointers (moves : list Input) :
  forallb isPointerMove moves = true -> forallb (inMode PAN) moves = true ->
  forallb isPanPointer moves = true.
Proof.
  induction moves as [|i moves IH]; intros Hm Hmm; [reflexivity|].
  cbn [forallb] in *.
  apply andb_true_iff in Hm as [Hi Hm]. apply andb_true_iff in Hmm as [Him Hmm].
  rewrite IH by assumption. unfold isPanPointer.
  rewrite Hi, Him, orb_true_r. reflexivity.
Qed.

Lemma gesture_panPointers (down : Input) (moves : list Input) (up : Input) :
  isGesture PAN down moves up = true ->
  forallb isPanPointer (down :: moves ++ [up]) = true.
Proof.
  intros Hg.
  destruct (isGesture_inv _ _ _ _ Hg) as (Hd & Hdm & Hm & Hmm & Hu & Hum).
  cbn [forallb]. rewrite forallb_app. cbn [forallb].
  rewrite moves_panPointers by assumption.
  unfold isPanPointer. rewrite Hd, Hdm, Hu, Hum, !orb_true_r. reflexivity.
Qed.

Lemma pointerDown_pan (st : State) (i : Input) :
  isPointerDown i = true -> inMode PAN i = true -> truthy (imgObj st) = true ->
  isDragging (step st i) = true /\ lastPos (step st i) = pointerPos i /\
  offset (step st i) = offset st /\ imgObj (step st i) = imgObj st.
Proof.
  intros Hdown Hmode Himg. apply inMode_eq in Hmode.
  inputKind i. unfold step, handle, handlePointerDown, pointerPos; simpl.
  destruct (imgObj st) eqn:E; [|discriminate].
  rewrite Hmode. simpl. rewrite E. auto.
Qed.

Lemma pointerMoves_pan (moves : list Input) :
  forall st : State,
    forallb isPointerMove moves = true -> forallb (inMode PAN) moves = true ->
    isDragging st = true -> truthy (imgObj st) = true ->
    offset (run st moves) = panned (offset st) (lastPos st) (map pointerPos moves).
Proof.
  induction moves as [|i moves IH]; intros st Hmoves Hmodes Hdrag Himg.
  - reflexivity.
  - cbn [forallb] in Hmoves, Hmodes. apply andb_true_iff in Hmoves as [Hi Hmoves].
    apply andb_true_iff in Hmodes as [Hm Hmodes]. apply inMode_eq in Hm.
    rewrite run_cons.
    assert (Hstep : isDragging (step st i) = true /\ imgObj (step st i) = imgObj st /\
                    lastPos (step st i) = pointerPos i /\
                    offset (step st i) =
                      {| x := x (offset st) + (x (pointerPos i) - x (lastPos st));
                         y := y (offset st) + (y (pointerPos i) - y (lastPos st)) |}).
    { inputKind i. unfold step, handle, handlePointerMove, pointerPos; simpl.
      rewrite Hdrag, Himg, Hm. simpl. auto. }
    destruct Hstep as (Hd & Hi' & Hl & Ho).
    rewrite IH; auto.
    + rewrite Hl, Ho. reflexivity.
    + rewrite Hi'. exact Himg.
Qed.

Lemma pointerUp_offset (st : State) (i : Input) :
  isPointerUp i = true -> offset (step st i) = offset st.
Proof.
  intros Hup. inputKind i. unfold step, handle, handlePointerUp; simpl.
  destruct (isDragging st && isDRAW (mode iprops) && (0 <? length (currentPath st))%nat);
    reflexivity.
Qed.

Lemma viewportInput_frame (st : State) (i : Input) :
  isViewportInput i = true ->
  paths (step st i) = paths st /\ imgObj (step st i) = imgObj st.
Proof.
  unfold isViewportInput. intros H. apply orb_true_iff in H as [Hw|Hp].
  - inputKind i. unfold step, handle, handleWheel; simpl.
    destruct (imgObj st) eqn:E; [|auto].
    destruct (canvasRef idom); simpl; auto.
  - destruct (panPointer_frame st i Hp) as (Hpaths & _ & Himg & _). auto.
Qed.

Lemma viewportInputs_frame (inputs : list Input) :
  forall st : State,
    forallb isViewportInput inputs = true ->
    paths (run st inputs) = paths st /\ imgObj (run st inputs) = imgObj st.
Proof.
  induction inputs as [|i inputs IH]; intros st Hall; [simpl; auto|].
  cbn [forallb] in Hall. apply andb_true_iff in Hall as [Hi Hall].
  rewrite run_cons.
  destruct (viewportInput_frame st i Hi) as (Hp & Him).
  destruct (IH (step st i) Hall) as (IHp & IHim).
  rewrite IHp, IHim, Hp, Him. auto.
Qed.

(** *** The off-screen canvas *)

Lemma point_eta (p : Point) : {| x := x p; y := y p |} = p.
Proof. destruct p; reflexivity. Qed.

Lemma samePen_refl (ctx : CanvasRenderingContext2D) : samePen ctx ctx.
Proof. unfold samePen. auto. Qed.

Lemma lineTo_all (rest : list Point) :
  forall (ctx : CanvasRenderingContext2D) (s : list Point),
    subpaths ctx = [s] ->
    let ctx' := fold_left (fun c p => lineTo (x p) (y p) c) rest ctx in
    subpaths ctx' = [s ++ rest] /\ painted ctx' = painted ctx /\
    lineWidth ctx' = lineWidth ctx /\ samePen ctx ctx'.
Proof.
  induction rest as [|p rest IH]; intros ctx s Hs; simpl.
  - rewrite app_nil_r. auto using samePen_refl.
  - destruct (IH (lineTo (x p) (y p) ctx) (s ++ [p])) as (Hsub & Hpaint & Hwidth & Hpen).
    { unfold lineTo; simpl. rewrite Hs, point_eta. reflexivity. }
    rewrite Hsub, Hpaint, Hwidth, <- app_assoc. simpl. repeat split; auto.
    all: apply Hpen.
Qed.

Lemma strokeMaskPath_painted (ctx : CanvasRenderingContext2D) (path : Path) :
  samePen ctx (strokeMaskPath ctx path) /\
  painted (strokeMaskPath ctx path) =
    painted ctx ++
    (if hasPoints path
     then [StrokePath (strokeStyle ctx) (size path) (lineCap ctx) (lineJoin ctx)
                      [points path]]
     else []).
Proof.
  unfold strokeMaskPath, hasPoints.
  destruct (points path) as [|p0 rest]; simpl.
  - rewrite app_nil_r. auto using samePen_refl.
  - set (start := moveTo (x p0) (y p0) (set_lineWidth (size path) (beginPath ctx))).
    destruct (@lineTo_all rest start [p0]) as (Hsub & Hpaint & Hwidth & Hpen).
    { unfold start, moveTo; simpl. rewrite point_eta. reflexivity. }
    unfold stroke, paint; simpl.
    rewrite Hsub, Hpaint, Hwidth.
    destruct Hpen as (Hf & Hs & Hc & Hj). rewrite Hs, Hc, Hj.
    unfold samePen; simpl. auto.
Qed.

Lemma strokeMaskPaths_painted (committed : list Path) :
  forall ctx : CanvasRenderingContext2D,
    strokeStyle ctx = "white"%string -> lineCap ctx = "round"%string ->
    lineJoin ctx = "round"%string ->
    painted (fold_left strokeMaskPath committed ctx) =
      painted ctx ++ map maskStroke (filter hasPoints committed).
Proof.
  induction committed as [|path committed IH]; intros ctx Hs Hc Hj; simpl.
  - rewrite app_nil_r. reflexivity.
  - destruct (strokeMaskPath_painted ctx path) as ((_ & Hs' & Hc' & Hj') & Hpaint).
    rewrite IH by congruence. rewrite Hpaint, Hs, Hc, Hj.
    destruct (hasPoints path); simpl.
    + rewrite <- app_assoc. reflexivity.
    + rewrite app_nil_r. reflexivity.
Qed.

(** *** Undo *)

Lemma undo_paths (st : State) : paths (undo st) = removelast (paths st).
Proof. unfold undo; simpl. apply slice_drop_last. Qed.

Lemma undo_frame (st : State) : sameButPaths st (undo st).
Proof. unfold sameButPaths, undo; simpl. repeat split. Qed.

Lemma undo_length (st : State) :
  length (paths (undo st)) = pred (length (paths st)).
Proof.
  rewrite undo_paths, removelast_firstn_len, length_firstn. lia.
Qed.

Lemma undoAll_paths (st : State) : paths (undoAll st) = [].
Proof.
  funelim (undoAll st); [assumption|].
  match goal with H : onMaskChange _ = false |- _ => pose proof H as Hlen end.
  unfold onMaskChange in Hlen. apply Nat.ltb_ge in Hlen.
  destruct (paths st); [reflexivity|simpl in Hlen; lia].
Qed.

Lemma undoAll_frame (st : State) : sameButPaths st (undoAll st).
Proof.
  funelim (undoAll st).
  - clear Heqcall. unfold sameButPaths in *.
    destruct (undo_frame st) as (H1 & H2 & H3 & H4 & H5 & H6).
    repeat match goal with H : _ /\ _ |- _ => destruct H end.
    repeat split; congruence.
  - unfold sameButPaths. repeat split.
Qed.

Lemma undoAll_iter (st : State) :
  undoAll st = Nat.iter (length (paths st)) undo st.
Proof.
  funelim (undoAll st).
  - match goal with H : onMaskChange _ = true |- _ => pose proof H as Hlen end.
    unfold onMaskChange in Hlen. apply Nat.ltb_lt in Hlen.
    match goal with IH : undoAll _ = Nat.iter _ _ _ |- _ => rewrite IH end.
    rewrite undo_length.
    destruct (length (paths st)) as [|n]; [lia|]. simpl.
    clear. induction n as [|n IH]; simpl; [reflexivity|]. rewrite IH. reflexivity.
  - match goal with H : onMaskChange _ = false |- _ => pose proof H as Hlen end.
    unfold onMaskChange in Hlen. apply Nat.ltb_ge in Hlen.
    replace (length (paths st)) with 0%nat by lia. reflexivity.
Qed.

Lemma pointerInput_appends (st : State) (i : Input) :
  isPointerDown i || isPointerMove i || isPointerUp i || isWheel i = true ->
  exists added : list Path, paths (step st i) = paths st ++ added.
Proof.
  intros Hkind. inputKind i; unfold step, handle; simpl.
  - exists []. rewrite app_nil_r. unfold handlePointerDown.
    destruct (imgObj st); [destruct (mode iprops)|]; reflexivity.
  - exists []. rewrite app_nil_r. unfold handlePointerMove.
    destruct (negb (isDragging st) || negb (truthy (imgObj st)));
      [|destruct (mode iprops)]; reflexivity.
  - unfold handlePointerUp.
    destruct (isDragging st && isDRAW (mode iprops) && (0 <? length (currentPath st))%nat);
      simpl; eauto.
    exists []. rewrite app_nil_r. reflexivity.
  - exists []. rewrite app_nil_r. unfold handleWheel.
    destruct (imgObj st); [destruct (canvasRef idom)|]; reflexivity.
Qed.

(** ** The claims that hold for every reading of the numbers *)

(** C1 — The exported mask does not depend on the viewport. Two states with
    the same loaded image and the same committed strokes export the same
    mask, whatever their scale and offset (and whatever the rest of their
    cells); and no sequence of viewport operations (wheel zooms, pointer
    events handled in pan mode) performed before the export changes it. *)
Theorem exportMask_viewport_independent :
  (forall (dom : DOM) (st1 st2 : State),
     imgObj st1 = imgObj st2 -> paths st1 = paths st2 ->
     getMaskDataURL dom st1 = getMaskDataURL dom st2) /\
  (forall (dom : DOM) (st : State) (inputs : list Input),
     forallb isViewportInput inputs = true ->
     getMaskDataURL dom (run st inputs) = getMaskDataURL dom st).
Proof.
  assert (Hsame : forall (dom : DOM) (st1 st2 : State),
             imgObj st1 = imgObj st2 -> paths st1 = paths st2 ->
             getMaskDataURL dom st1 = getMaskDataURL dom st2).
  { intros dom st1 st2 Himg Hpaths. unfold getMaskDataURL.
    rewrite Himg, Hpaths. reflexivity. }
  split; [exact Hsame|].
  intros dom st inputs Hall.
  destruct (viewportInputs_frame inputs st Hall) as (Hpaths & Himg).
  apply Hsame; assumption.
Qed.

(** C3 — Fit to container on image load. When the image [img] is loaded
    into a component whose container element has the client size
    [container], the scale is [Math.min(cw/iw, ch/ih, 1) * 0.9] and the
    offset is [((cw - iw*scale)/2, (ch - ih*scale)/2)]: the value of
    [fitToContainer] on the four dimensions. *)
Theorem fit_on_image_load :
  forall (dom : DOM) (container : HTMLDivElement) (img : HTMLImageElement) (st : State),
    containerRef dom = Some container ->
    let st' := onload dom img st in
    scale st' =
      Math_min (clientWidth container / width img)
               [clientHeight container / height img; lit 1] * lit 0.9 /\
    x (offset st') = (clientWidth container - width img * scale st') / lit 2 /\
    y (offset st') = (clientHeight container - height img * scale st') / lit 2 /\
    (scale st', offset st') =
      fitToContainer (width img) (height img)
                     (clientWidth container) (clientHeight container).
Proof.
  intros dom container img st Hc. unfold onload, fitToContainer.
  rewrite Hc. simpl. auto.
Qed.


(** C5 (as amended) — The stroke appended by a drag in draw mode carries the
    brush size passed to the component when the pointer-up is handled; no
    size is recorded when the drag starts. Once committed, a stroke is out
    of reach of the brush size: pointer and wheel events only append to the
    committed list. *)
Theorem stroke_diameter_at_commit :
  (forall (st : State) (down : Input) (moves : list Input) (up : Input),
     isGesture DRAW down moves up = true -> truthy (imgObj st) = true ->
     exists pts : list Point,
       paths (run st (down :: moves ++ [up])) =
         paths st ++ [{| points := pts; size := brushSize (inProps up) |}]) /\
  (forall (st : State) (i : Input),
     isPointerDown i || isPointerMove i || isPointerUp i || isWheel i = true ->
     exists added : list Path, paths (step st i) = paths st ++ added).
Proof.
  split.
  - intros st down moves up Hg Himg.
    destruct (drawGesture_commit st down moves up Hg Himg) as (pts & Hpaths & _).
    exists pts. exact Hpaths.
  - apply pointerInput_appends.
Qed.

(** C7 (as amended) — [getMaskDataURL] returns [null] exactly when no image
    is loaded or no 2D context is obtained for the off-screen canvas.
    Otherwise it returns the image of a canvas of the natural width and
    height of the loaded image, on which a black rectangle covering it was
    filled and then, for each committed stroke in order, one white
    round-capped, round-joined polyline through its points with a line width
    equal to the size recorded in the stroke. Scale and offset do not occur
    in the result. *)
Theorem exportMask_result :
  forall (dom : DOM) (st : State),
    (getMaskDataURL dom st = None <->
     imgObj st = None \/ getContext2d dom = false) /\
    (forall img : HTMLImageElement,
       imgObj st = Some img -> getContext2d dom = true ->
       exists mask : DataURL,
         getMaskDataURL dom st = Some mask /\
         imageWidth mask = width img /\ imageHeight mask = height img /\
         imagePaint mask =
           FillRect "black" (lit 0) (lit 0) (width img) (height img)
           :: map maskStroke (filter hasPoints (paths st))).
Proof.
  intros dom st. split.
  - unfold getMaskDataURL.
    destruct (imgObj st) as [img|]; [|intuition].
    destruct (getContext2d dom); simpl; split; intros H; auto; try discriminate.
    destruct H; discriminate.
  - intros img Himg Hctx. unfold getMaskDataURL. rewrite Himg, Hctx. simpl.
    eexists. split; [reflexivity|]. simpl. repeat split.
    rewrite strokeMaskPaths_painted by reflexivity. reflexivity.
Qed.

(** C8 — Reset on image load. Whatever the state before, when a new image
    is loaded into a component whose container element is mounted, the
    committed list is empty afterwards and scale and offset are the
    fit-and-centre values of that image in that container. *)
Theorem image_load_resets :
  forall (dom : DOM) (container : HTMLDivElement) (img : HTMLImageElement) (st : State),
    containerRef dom = Some container ->
    let st' := onload dom img st in
    paths st' = [] /\
    (scale st', offset st') =
      fitToContainer (width img) (height img)
                     (clientWidth container) (clientHeight container) /\
    imgObj st' = Some img.
Proof.
  intros dom container img st Hc. unfold onload, fitToContainer.
  rewrite Hc. simpl. auto.
Qed.

(** C9 — Undo. [undo] removes the last committed stroke when there is one
    and changes nothing when there is none; it is total, and it leaves every
    other cell of the state, the in-progress stroke among them, as it was.
    Undoing while a stroke is left stops after as many calls as there were
    strokes, with an empty list. *)
Theorem undo_semantics :
  forall st : State,
    (forall (strokes : list Path) (last : Path),
       paths st = strokes ++ [last] -> paths (undo st) = strokes) /\
    (paths st = [] -> undo st = st) /\
    currentPath (undo st) = currentPath st /\
    sameButPaths st (undo st) /\
    undoAll st = Nat.iter (length (paths st)) undo st /\
    paths (undoAll st) = [] /\
    currentPath (undoAll st) = currentPath st.
Proof.
  intros st. repeat split; try reflexivity.
  - intros strokes last Hp. rewrite undo_paths, Hp. apply removelast_snoc.
  - intros Hp. unfold undo, setPathsWith. rewrite Hp. destruct st; simpl in *.
    rewrite Hp. reflexivity.
  - apply undoAll_iter.
  - apply undoAll_paths.
  - apply (undoAll_frame st).
Qed.

End Properties.

(** ** Properties in exact arithmetic *)

Section ExactProperties.

Local Existing Instance Q_Number.
Local Open Scope Q_scope.

(** *** Minimum, maximum and the clamp of the zoom *)

Lemma Math_min_three (a b c : Q) : Math_min a [b; c] == Qmin a (Qmin b c).
Proof. unfold Math_min; simpl. symmetry. apply Q.min_assoc. Qed.

Lemma Math_min_lower (a b c : Q) :
  Math_min a [b; c] <= a /\ Math_min a [b; c] <= b /\ Math_min a [b; c] <= c.
Proof.
  unfold Math_min; simpl. repeat split.
  - eapply Qle_trans; [apply Q.le_min_l|apply Q.le_min_l].
  - eapply Qle_trans; [apply Q.le_min_l|apply Q.le_min_r].
  - apply Q.le_min_r.
Qed.

Lemma Math_min_positive (a b c : Q) :
  0 < a -> 0 < b -> 0 < c -> 0 < Math_min a [b; c].
Proof.
  intros Ha Hb Hc. unfold Math_min; simpl.
  apply Q.min_glb_lt; [apply Q.min_glb_lt|]; assumption.
Qed.

Lemma clamp_range (v : Q) : 0.1 <= clamp v <= 10.
Proof.
  unfold clamp, Math_min, Math_max; simpl. split.
  - apply Q.min_glb; [apply Q.le_max_l|lra].
  - apply Q.le_min_r.
Qed.

Lemma clamp_cases (v : Q) :
  (10 <= v -> clamp v == 10) /\
  (v <= 0.1 -> clamp v == 0.1) /\
  (0.1 <= v <= 10 -> clamp v == v).
Proof.
  unfold clamp, Math_min, Math_max; simpl. repeat split.
  - intros Hv. apply Q.min_r. eapply Qle_trans; [exact Hv|apply Q.le_max_r].
  - intros Hv. rewrite (Q.max_l 0.1 v) by exact Hv. apply Q.min_l. lra.
  - intros [Hlo Hhi]. rewrite (Q.max_r 0.1 v) by exact Hlo. apply Q.min_l. exact Hhi.
Qed.

Lemma handleWheel_scale (dom : DOM) (rect : DOMRect) (img : HTMLImageElement)
    (st : State) (e : WheelEvent) :
  imgObj st = Some img -> canvasRef dom = Some rect ->
  exists st' : State,
    handleWheel dom st st e = Some st' /\
    scale st' = clamp (scale st + - deltaY e * 0.001).
Proof.
  intros Himg Hrect. unfold handleWheel. rewrite Himg, Hrect.
  eexists. split; reflexivity.
Qed.

(** *** The invariant of the scale *)

Lemma step_scale (st : State) (i : Input) :
  positiveSizes i -> 0 < scale st <= 10 -> 0 < scale (step st i) <= 10.
Proof.
  intros Hpos Hinv.
  destruct i as [iprops idom [e|e| |e|img| | |]]; unfold step, handle; simpl.
  - unfold handlePointerDown.
    destruct (imgObj st); [destruct (mode iprops)|]; exact Hinv.
  - unfold handlePointerMove.
    destruct (negb (isDragging st) || negb (truthy (imgObj st)));
      [|destruct (mode iprops)]; exact Hinv.
  - unfold handlePointerUp.
    destruct (isDragging st && isDRAW (mode iprops) && (0 <? length (currentPath st))%nat);
      exact Hinv.
  - destruct (imgObj st) as [img|] eqn:Himg.
    + destruct (canvasRef idom) as [rect|] eqn:Hrect.
      * destruct (@handleWheel_scale _ _ _ _ e Himg Hrect) as (st' & Hw & Hs).
        rewrite Hw, Hs.
        pose proof (clamp_range (scale st + - deltaY e * 0.001)). lra.
      * unfold handleWheel. rewrite Himg, Hrect. exact Hinv.
    + unfold handleWheel. rewrite Himg. exact Hinv.
  - unfold positiveSizes in Hpos; simpl in Hpos.
    destruct Hpos as (Hw & Hh & Hc). unfold onload.
    destruct (containerRef idom) as [container|]; simpl; [|exact Hinv].
    destruct (Hc container eq_refl) as (Hcw & Hch).
    set (fit := @Math_min Q_Number (clientWidth container / width img)
                                   [clientHeight container / height img; 1]).
    assert (0 < fit).
    { apply Math_min_positive; [| |lra]; apply Qlt_shift_div_l; lra. }
    assert (fit <= 1) by apply Math_min_lower.
    change (0 < fit * 0.9 <= 10). lra.
  - exact Hinv.
  - exact Hinv.
  - exact Hinv.
Qed.

Lemma reachable_scale (st : State) : reachable st -> 0 < scale st <= 10.
Proof.
  induction 1 as [|st i Hreach IH Hpos].
  - simpl. lra.
  - apply step_scale; assumption.
Qed.

(** ** The claims in exact arithmetic *)

(** C2 — Cursor-anchored zoom. From a state of positive scale, a wheel event
    at the screen point [p] leads to a state in which [p] has the same image
    coordinates as before: [getCanvasCoords] of [p] is unchanged, as an
    equation between rationals. This holds for every wheel delta, whether
    the requested scale is clamped or not. *)
Theorem zoom_anchor_invariance :
  forall (dom : DOM) (rect : DOMRect) (st : State) (e : WheelEvent),
    canvasRef dom = Some rect ->
    0 < scale st ->
    exists st' : State,
      handleWheel dom st st e = Some st' /\
      let p := {| x := wheelX e - left rect; y := wheelY e - top rect |} in
      Point_eq (getCanvasCoords st' p) (getCanvasCoords st p).
Proof.
  intros dom rect st e Hrect Hscale.
  destruct (imgObj st) as [img|] eqn:Himg.
  - destruct (@handleWheel_scale _ _ _ _ e Himg Hrect) as (st' & Hw & Hs).
    exists st'. split; [exact Hw|].
    unfold handleWheel in Hw. rewrite Himg, Hrect in Hw.
    injection Hw as Hw. rewrite <- Hw. clear Hw Hs st'.
    unfold Point_eq, getCanvasCoords; simpl.
    pose proof (clamp_range (scale st + - deltaY e * 0.001)) as Hrange.
    change (Qmin (Qmax 0.1 (scale st + - deltaY e * 0.001)) 10)
      with (clamp (scale st + - deltaY e * 0.001)).
    generalize dependent (clamp (scale st + - deltaY e * 0.001)).
    intros newScale Hrange.
    split; field; split; lra.
  - exists st. unfold handleWheel. rewrite Himg. split; [reflexivity|].
    unfold Point_eq. split; reflexivity.
Qed.

(** C6 (as amended) — Bounds of the scale. In every reachable state the
    scale is positive and at most 10. A zoom on a loaded image is never
    rejected and leaves the scale within [0.1, 10]: a request above 10
    gives 10, a request below 0.1 gives 0.1, a request in between is taken
    as it is. An image load with positive sizes sets a scale that is
    positive and at most 0.9; it is not raised to 0.1. *)
Theorem scale_bounds :
  (forall st : State, reachable st -> 0 < scale st <= 10) /\
  (forall (dom : DOM) (rect : DOMRect) (img : HTMLImageElement)
          (st : State) (e : WheelEvent),
     imgObj st = Some img -> canvasRef dom = Some rect ->
     exists st' : State,
       handleWheel dom st st e = Some st' /\
       0.1 <= scale st' <= 10 /\
       let requested := scale st + - deltaY e * 0.001 in
       (10 <= requested -> scale st' == 10) /\
       (requested <= 0.1 -> scale st' == 0.1) /\
       (0.1 <= requested <= 10 -> scale st' == requested)) /\
  (forall (dom : DOM) (container : HTMLDivElement) (img : HTMLImageElement)
          (st : State),
     containerRef dom = Some container ->
     0 < width img -> 0 < height img ->
     0 < clientWidth container -> 0 < clientHeight container ->
     0 < scale (onload dom img st) <= 0.9).
Proof.
  split; [exact reachable_scale|]. split.
  - intros dom rect img st e Himg Hrect.
    destruct (@handleWheel_scale _ _ _ _ e Himg Hrect) as (st' & Hw & Hs).
    exists st'. split; [exact Hw|]. rewrite Hs. split; [apply clamp_range|].
    apply clamp_cases.
  - intros dom container img st Hc Hiw Hih Hcw Hch.
    unfold onload. rewrite Hc. simpl. split.
    + apply Qmult_lt_0_compat; [|lra].
      apply Math_min_positive; [| |lra]; apply Qlt_shift_div_l; lra.
    + pose proof (Math_min_lower (clientWidth container / width img)
                               (clientHeight container / height img) 1) as (_ & _ & Hle).
      set (fit := @Math_min Q_Number (clientWidth container / width img)
                                     [clientHeight container / height img; 1]) in *.
      change (fit * 0.9 <= 0.9). lra.
Qed.

End ExactProperties.

(** ** Instances of the claims on the sample inputs *)

Section Instances.

Local Existing Instance Q_Number.
Local Open Scope Q_scope.

Lemma loadedState_reachable : reachable loadedState.
Proof.
  apply reachable_step; [apply reachable_initial|].
  unfold positiveSizes; simpl. repeat split; try reflexivity.
  all: injection H as <-; reflexivity.
Qed.

(** C1 on [strokedState]: a pan drag and a zoom before the export. *)
Lemma exportMask_viewport_independent_witness :
  (imgObj (setScale 3 strokedState) = imgObj strokedState /\
   paths (setScale 3 strokedState) = paths strokedState /\
   getMaskDataURL sampleDom (setScale 3 strokedState) =
     getMaskDataURL sampleDom strokedState) /\
  (forallb isViewportInput panAndZoom = true /\
   getMaskDataURL sampleDom (run strokedState panAndZoom) =
     getMaskDataURL sampleDom strokedState).
Proof.
  destruct (@exportMask_viewport_independent Q_Number) as (Hstates & Hinputs).
  split.
  - split; [reflexivity|]. split; [reflexivity|].
    apply Hstates; reflexivity.
  - split; [reflexivity|]. apply Hinputs. reflexivity.
Defined.

(** C2 on [loadedState], zooming in at the screen point (40, 30). *)
Lemma zoom_anchor_invariance_witness :
  canvasRef sampleDom = Some sampleRect /\
  0 < scale loadedState /\
  exists st' : State,
    handleWheel sampleDom loadedState loadedState sampleWheel = Some st' /\
    Point_eq (getCanvasCoords st' (screenPoint (40 - 0) (30 - 0)))
             (getCanvasCoords loadedState (screenPoint (40 - 0) (30 - 0))).
Proof.
  split; [reflexivity|]. split; [reflexivity|].
  apply (@zoom_anchor_invariance sampleDom sampleRect loadedState sampleWheel);
    reflexivity.
Defined.

(** C3 for a 100 x 100 image in a 100 x 100 container. *)
Lemma fit_on_image_load_witness :
  containerRef sampleDom = Some sampleContainer /\
  (scale loadedState, offset loadedState) = fitToContainer 100 100 100 100.
Proof.
  split; [reflexivity|].
  apply (@fit_on_image_load Q_Number sampleDom sampleContainer sampleImage
           initialState).
  reflexivity.
Defined.


(** C5 (as amended) on [loadedState]: the stroke of [resizedDrag] has the
    brush size of its pointer-up. *)
Lemma stroke_diameter_at_commit_witness :
  (isGesture DRAW drawDown [drawMove] drawUp = true /\
   truthy (imgObj loadedState) = true /\
   exists pts : list Point,
     paths (run loadedState (drawDown :: [drawMove] ++ [drawUp])) =
       paths loadedState ++ [{| points := pts; size := 20 |}]) /\
  (isPointerDown drawDown || isPointerMove drawDown || isPointerUp drawDown
   || isWheel drawDown = true /\
   exists added : list Path,
     paths (step strokedState drawDown) = paths strokedState ++ added).
Proof.
  destruct (@stroke_diameter_at_commit Q_Number) as (Hgesture & Hkept).
  split.
  - split; [reflexivity|]. split; [reflexivity|].
    apply (Hgesture loadedState drawDown [drawMove] drawUp); reflexivity.
  - split; [reflexivity|]. apply Hkept. reflexivity.
Defined.

(** C6 (as amended) on [loadedState]. *)
Lemma scale_bounds_witness :
  (reachable loadedState /\ 0 < scale loadedState <= 10) /\
  (imgObj loadedState = Some sampleImage /\
   canvasRef sampleDom = Some sampleRect /\
   exists st' : State,
     handleWheel sampleDom loadedState loadedState sampleWheel = Some st' /\
     0.1 <= scale st' <= 10) /\
  (containerRef sampleDom = Some sampleContainer /\
   0 < width largeImage /\ 0 < height largeImage /\
   0 < clientWidth sampleContainer /\ 0 < clientHeight sampleContainer /\
   0 < scale (onload sampleDom largeImage strokedState) <= 0.9).
Proof.
  destruct scale_bounds as (Hreach & Hzoom & Hfit).
  split; [|split].
  - split; [exact loadedState_reachable|].
    apply Hreach. exact loadedState_reachable.
  - split; [reflexivity|]. split; [reflexivity|].
    destruct (Hzoom sampleDom sampleRect sampleImage loadedState sampleWheel)
      as (st' & Hw & Hrange & _); try reflexivity.
    exists st'. split; assumption.
  - repeat (split; [reflexivity|]).
    apply (Hfit sampleDom sampleContainer largeImage strokedState); reflexivity.
Defined.

(** C7 (as amended) on [strokedState]. *)
Lemma exportMask_result_witness :
  imgObj strokedState = Some sampleImage /\
  getContext2d sampleDom = true /\
  exists mask : DataURL,
    getMaskDataURL sampleDom strokedState = Some mask /\
    imageWidth mask = 100 /\ imageHeight mask = 100 /\
    imagePaint mask =
      FillRect "black" 0 0 100 100
      :: map maskStroke (filter hasPoints (paths strokedState)).
Proof.
  split; [reflexivity|]. split; [reflexivity|].
  apply (proj2 (@exportMask_result Q_Number sampleDom strokedState) sampleImage);
    reflexivity.
Defined.

(** C8 on [strokedState]: loading the large image drops its stroke. *)
Lemma image_load_resets_witness :
  containerRef sampleDom = Some sampleContainer /\
  paths (onload sampleDom largeImage strokedState) = [] /\
  (scale (onload sampleDom largeImage strokedState),
   offset (onload sampleDom largeImage strokedState)) =
    fitToContainer 10000 10000 100 100 /\
  imgObj (onload sampleDom largeImage strokedState) = Some largeImage.
Proof.
  split; [reflexivity|].
  apply (@image_load_resets Q_Number sampleDom sampleContainer largeImage
           strokedState).
  reflexivity.
Defined.

(** C9 on [strokedState], which has one stroke, and on [loadedState], which
    has none. *)
Lemma undo_semantics_witness :
  paths loadedState = [] /\
  paths (undo strokedState) = [] /\
  undo loadedState = loadedState /\
  paths (undoAll strokedState) = [].
Proof.
  split; [reflexivity|].
  destruct (@undo_semantics Q_Number strokedState) as (Hlast & _ & _ & _ & _ & Hall & _).
  destruct (@undo_semantics Q_Number loadedState) as (_ & Hnil & _).
  split; [|split].
  - eapply (Hlast []). vm_compute. reflexivity.
  - apply Hnil. reflexivity.
  - exact Hall.
Defined.

(** *** Inputs on which a claim fails as it is stated *)


(** C5 — The drag [resizedDrag] starts under brush size 10, and the stroke
    it commits has size 20, the brush size at its pointer-up. *)
Lemma stroke_diameter_not_frozen_at_start :
  isGesture DRAW drawDown [drawMove] drawUp = true /\
  brushSize (inProps drawDown) = 10 /\
  paths loadedState = [] /\
  map size (paths (run loadedState resizedDrag)) = [20] /\
  ~ 20 == 10.
Proof.
  repeat split. intros H. discriminate H.
Qed.

(** C6 — Loading a 10000 x 10000 image into a 100 x 100 container is a
    reachable state whose scale, 0.009, is below the minimum 0.1. *)
Lemma scale_below_minimum_after_load :
  reachable (step initialState largeImageLoad) /\
  scale (step initialState largeImageLoad) == 0.009 /\
  ~ (0.1 <= scale (step initialState largeImageLoad) <= 10).
Proof.
  split; [|split].
  - apply reachable_step; [apply reachable_initial|].
    unfold positiveSizes; simpl. repeat split; try reflexivity.
    all: injection H as <-; reflexivity.
  - reflexivity.
  - intros [Hlo _]. vm_compute in Hlo. apply Hlo. reflexivity.
Qed.

(** C7 — With an image loaded, the export is still [null] when no 2D context
    is obtained. *)
Lemma exportMask_null_with_image :
  imgObj strokedState = Some sampleImage /\
  getMaskDataURL noContextDom strokedState = None.
Proof. split; reflexivity. Qed.

(** *** An input on which the code departs from a claim *)

(** C10 — Two moves of a pan drag handled before the next render. On the
    100 x 100 image fitted at offset (5, 5), the pointer goes down at
    (10, 10) and moves to (30, 25) and on to (50, 40). Adding to the offset
    the pointer delta of each move gives (45, 35), and that is where the
    offset ends when each move is rendered before the next is handled. When
    the two moves are handled by the same render, the second one adds its
    distance from (10, 10), the last position of that render, and the offset
    ends at (65, 50). The strokes, the candidate and the scale are as they
    were. *)
Theorem pan_moves_before_render :
  let st := runBatches loadedState unrenderedMoves in
  isGesture PAN panDown [panMove; panMoveOn] panUp = true /\
  concat unrenderedMoves = panDown :: [panMove; panMoveOn] ++ [panUp] /\
  Point_eq (offset loadedState) (screenPoint 5 5) /\
  Point_eq (panned (offset loadedState) (pointerPos panDown)
                   (map pointerPos [panMove; panMoveOn]))
           (screenPoint 45 35) /\
  Point_eq (offset (run loadedState (concat unrenderedMoves))) (screenPoint 45 35) /\
  Point_eq (offset st) (screenPoint 65 50) /\
  ~ Point_eq (offset st) (screenPoint 45 35) /\
  paths st = paths loadedState /\ currentPath st = [] /\
  scale st = scale loadedState.
Proof.
  cbv zeta. repeat split; try reflexivity.
  intros [Hx _]. vm_compute in Hx. discriminate Hx.
Qed.

End Instances.

(** ** The binary64 reading on the sample inputs

    The claims proved for every reading of the numbers hold of the component
    as the browser runs it. The examples below evaluate that reading where
    the statements above are about exact arithmetic. *)

Section Binary64Instances.

Local Existing Instance float_Number.

(** The literals of the source are read as the browser reads them. *)
Example binary64_literals :
  js 0.1 = 0x1.999999999999ap-4%float /\
  js 0.9 = 0x1.ccccccccccccdp-1%float /\
  js 0.001 = 0x1.0624dd2f1a9fcp-10%float.
Proof. repeat split. Qed.

(** The fit scale of a 10000 x 10000 image in a 100 x 100 container is below
    0.1 in binary64 as well. *)
Example binary64_scale_below_minimum :
  PrimFloat.ltb
    (scale (step initialState (jsInput DRAW 40 (ImageLoaded (jsImage 10000)))))
    (js 0.1) = true.
Proof. vm_compute. reflexivity. Qed.

(** The stroke of a drag started with brush size 10 and ended with brush
    size 20 has size 20. *)
Example binary64_stroke_diameter :
  map size (paths (run jsLoaded jsDrag)) = [js 20].
Proof. vm_compute. reflexivity. Qed.

(** After a zoom the image coordinates of the cursor are the ones before up
    to rounding: on this input they differ in the last place. *)
Example binary64_zoom_anchor_rounding :
  x (getCanvasCoords jsLoaded jsAnchor) <> x (getCanvasCoords jsZoomed jsAnchor) /\
  PrimFloat.ltb
    (PrimFloat.abs (PrimFloat.sub (x (getCanvasCoords jsLoaded jsAnchor))
                                  (x (getCanvasCoords jsZoomed jsAnchor))))
    (js (1 # 1000000000000)) = true /\
  y (getCanvasCoords jsLoaded jsAnchor) = y (getCanvasCoords jsZoomed jsAnchor).
Proof.
  split; [|split].
  - vm_compute. intros H. discriminate H.
  - vm_compute. reflexivity.
  - vm_compute. reflexivity.
Qed.

(** With no 2D context the export is [null] although an image is loaded. *)
Example binary64_export_without_context :
  getMaskDataURL (jsDom false) (run jsLoaded jsDrag) = None.
Proof. reflexivity. Qed.

End Binary64Instances.

(** ** Further properties of the component, for every reading of the numbers *)

Section MoreProperties.

Context {N : Number}.
Local Open Scope num_scope.

Ltac inputKind i :=
  destruct i as [iprops idom [e|e| |e|img| | |]]; simpl in *; try discriminate.

Lemma state_ext (st st' : State) :
  scale st' = scale st -> offset st' = offset st ->
  isDragging st' = isDragging st -> lastPos st' = lastPos st ->
  paths st' = paths st -> currentPath st' = currentPath st ->
  imgObj st' = imgObj st -> st' = st.
Proof. destruct st, st'; simpl; intros; subst; reflexivity. Qed.

Lemma Forall_removelast (A : Type) (P : A -> Prop) (l : list A) :
  Forall P l -> Forall P (removelast l).
Proof.
  induction 1 as [|a l Ha Hl IH]; simpl; [constructor|].
  destruct l; [constructor|]. constructor; assumption.
Qed.

Lemma filter_all (A : Type) (f : A -> bool) (l : list A) :
  Forall (fun a => f a = true) l -> filter f l = l.
Proof.
  induction 1 as [|a l Ha Hl IH]; simpl; [reflexivity|].
  rewrite Ha, IH. reflexivity.
Qed.

(** *** The shape of the states *)

Lemma step_wellFormed (st : State) (i : Input) :
  wellFormed st -> wellFormed (step st i).
Proof.
  intros [Hpaths Hidle]. unfold wellFormed.
  destruct i as [iprops idom [e|e| |e|img| | |]]; unfold step, handle; simpl.
  - unfold handlePointerDown.
    destruct (imgObj st); [|auto].
    destruct (mode iprops); simpl; split; auto; discriminate.
  - unfold handlePointerMove.
    destruct (isDragging st) eqn:Hdrag; simpl; [|auto].
    destruct (truthy (imgObj st)); simpl; [|rewrite Hdrag; auto].
    destruct (mode iprops); simpl; rewrite Hdrag; split; auto; discriminate.
  - unfold handlePointerUp.
    destruct (isDragging st && isDRAW (mode iprops)); simpl; [|auto].
    destruct (0 <? length (currentPath st))%nat eqn:Hlen; simpl; [|auto].
    split; [|auto]. apply Forall_app. split; [exact Hpaths|].
    constructor; [|constructor]. exact Hlen.
  - unfold handleWheel.
    destruct (imgObj st); [|auto]. destruct (canvasRef idom); simpl; auto.
  - unfold onload. destruct (containerRef idom); simpl; auto.
  - auto.
  - split; [|exact Hidle]. rewrite slice_drop_last.
    apply Forall_removelast. exact Hpaths.
  - auto.
Qed.

Lemma run_wellFormed (inputs : list Input) :
  forall st : State, wellFormed st -> wellFormed (run st inputs).
Proof.
  induction inputs as [|i inputs IH]; intros st Hst; [exact Hst|].
  rewrite run_cons. apply IH, step_wellFormed, Hst.
Qed.


(** X2 — In a state the component can reach, the export skips no stroke: on
    a loaded image with a 2D context it paints the black rectangle and then
    one white stroke for each committed stroke, in the order of commit. *)
Theorem export_paints_every_stroke :
  forall (inputs : list Input) (dom : DOM) (img : HTMLImageElement),
    imgObj (run initialState inputs) = Some img ->
    getContext2d dom = true ->
    getMaskDataURL dom (run initialState inputs) =
      Some {| imageWidth := width img;
              imageHeight := height img;
              imagePaint :=
                FillRect "black" (lit 0) (lit 0) (width img) (height img)
                :: map maskStroke (paths (run initialState inputs)) |}.
Proof.
  intros inputs dom img Himg Hctx.
  destruct (@run_wellFormed inputs initialState) as [Hpaths _].
  { split; [constructor|reflexivity]. }
  unfold getMaskDataURL. rewrite Himg, Hctx. simpl. unfold toDataURL; simpl.
  rewrite strokeMaskPaths_painted by reflexivity.
  rewrite (filter_all _ Hpaths). reflexivity.
Qed.

(** X3 — With no image loaded and no drag in progress the canvas is inert:
    no sequence of pointer and wheel events changes any cell of the state,
    and the export stays [null]. *)
Theorem no_image_inert :
  forall (st : State) (inputs : list Input) (dom : DOM),
    imgObj st = None -> isDragging st = false -> currentPath st = [] ->
    forallb isPointerOrWheel inputs = true ->
    run st inputs = st /\ getMaskDataURL dom (run st inputs) = None.
Proof.
  intros st inputs dom Himg Hdrag Hcur Hall.
  assert (Hrun : run st inputs = st).
  { induction inputs as [|i inputs IH]; [reflexivity|].
    cbn [forallb] in Hall. apply andb_true_iff in Hall as [Hi Hall].
    rewrite run_cons.
    assert (Hstep : step st i = st).
    { unfold isPointerOrWheel in Hi.
      inputKind i; unfold step, handle; simpl.
      - unfold handlePointerDown. rewrite Himg. reflexivity.
      - unfold handlePointerMove. rewrite Hdrag. reflexivity.
      - unfold handlePointerUp. rewrite Hdrag. simpl.
        apply state_ext; simpl; auto.
      - unfold handleWheel. rewrite Himg. reflexivity. }
    rewrite Hstep. apply IH. exact Hall. }
  rewrite Hrun. split; [reflexivity|].
  unfold getMaskDataURL. rewrite Himg. reflexivity.
Qed.

(** X4 — Undoing every stroke is resetting the mask: as many calls of
    [undo] as there are committed strokes leave the state [resetMask]
    leaves, cell for cell. *)
Theorem undo_all_is_resetMask :
  forall st : State, Nat.iter (length (paths st)) undo st = resetMask st.
Proof.
  intros st. rewrite <- undoAll_iter.
  destruct (undoAll_frame st) as (Hs & Ho & Hd & Hl & Hc & Hi).
  apply state_ext; simpl; auto. apply undoAll_paths.
Qed.

(** *** Strokes are captured in image space *)



Lemma pointerUp_draw (st : State) (i : Input) :
  isPointerUp i = true -> inMode DRAW i = true -> isDragging st = true ->
  paths (step st i) =
    paths st ++
    match currentPath st with
    | [] => []
    | _ :: _ => [{| points := currentPath st; size := brushSize (inProps i) |}]
    end.
Proof.
  intros Hup Hmode Hdrag. apply inMode_eq in Hmode.
  inputKind i. unfold step, handle, handlePointerUp; simpl.
  rewrite Hdrag, Hmode. simpl.
  destruct (currentPath st); simpl; [rewrite app_nil_r|]; reflexivity.
Qed.


(** X6 — Commit and undo cancel: after a drag in draw mode on a loaded
    image, the parent is told that there is a mask, and one [undo] brings
    the committed list back to what it was before the drag. *)
Theorem undo_after_commit :
  forall (st : State) (down : Input) (moves : list Input) (up : Input),
    isGesture DRAW down moves up = true -> truthy (imgObj st) = true ->
    onMaskChange (run st (down :: moves ++ [up])) = true /\
    paths (undo (run st (down :: moves ++ [up]))) = paths st.
Proof.
  intros st down moves up Hg Himg.
  destruct (drawGesture_commit st down moves up Hg Himg) as (pts & Hpaths & _).
  split.
  - unfold onMaskChange. rewrite Hpaths, length_app. simpl.
    apply Nat.ltb_lt. lia.
  - rewrite undo_paths, Hpaths. apply removelast_snoc.
Qed.


(** *** The live preview *)

Lemma lineTo_screen (rest : list Point) :
  forall ctx : ScreenContext,
    fold_left (fun c p => withPen (lineTo (x p) (y p)) c) rest ctx =
      {| pen := fold_left (fun c p => lineTo (x p) (y p) c) rest (pen ctx);
         transform := transform ctx; saved := saved ctx; screen := screen ctx |}.
Proof.
  induction rest as [|p rest IH]; intros ctx; simpl.
  - destruct ctx; reflexivity.
  - rewrite IH. reflexivity.
Qed.

Lemma drawPath_screen (st : State) (ctx : ScreenContext) (path : Path) :
  screen (drawPath st ctx path) =
    screen ctx ++
    (if hasPoints path
     then [StrokeLine (transform ctx) (strokeStyle (pen ctx)) (size path / scale st)
                      (lineCap (pen ctx)) (lineJoin (pen ctx)) [points path]]
     else []) /\
  transform (drawPath st ctx path) = transform ctx /\
  saved (drawPath st ctx path) = saved ctx /\
  samePen (pen ctx) (pen (drawPath st ctx path)).
Proof.
  unfold drawPath, hasPoints.
  destruct (points path) as [|p0 rest]; simpl.
  - rewrite app_nil_r. auto using samePen_refl.
  - rewrite lineTo_screen. unfold strokeScreen, paintScreen; simpl.
    set (start := moveTo (x p0) (y p0)
                         (set_lineWidth (size path / scale st) (beginPath (pen ctx)))).
    destruct (@lineTo_all N rest start [p0]) as (Hsub & _ & Hwidth & Hpen).
    { unfold start, moveTo; simpl. rewrite point_eta. reflexivity. }
    rewrite Hsub, Hwidth.
    destruct Hpen as (Hf & Hs & Hc & Hj). rewrite Hs, Hc, Hj.
    unfold samePen; simpl. rewrite Hf, Hs, Hc, Hj.
    repeat split; reflexivity.
Qed.

Lemma drawPaths_screen (st : State) (committed : list Path) :
  forall ctx : ScreenContext,
    transform ctx = viewTransform st ->
    strokeStyle (pen ctx) = "rgba(239, 68, 68, 0.5)"%string ->
    lineCap (pen ctx) = "round"%string -> lineJoin (pen ctx) = "round"%string ->
    let ctx' := fold_left (drawPath st) committed ctx in
    screen ctx' = screen ctx ++ map (previewStroke st) (filter hasPoints committed) /\
    transform ctx' = transform ctx /\ saved ctx' = saved ctx /\
    samePen (pen ctx) (pen ctx').
Proof.
  induction committed as [|path committed IH]; intros ctx Ht Hs Hc Hj; simpl.
  - rewrite app_nil_r. auto using samePen_refl.
  - destruct (drawPath_screen st ctx path) as (Hscreen & Ht' & Hsaved & Hpen).
    destruct Hpen as (Hf' & Hs' & Hc' & Hj').
    destruct (IH (drawPath st ctx path)) as (IHscreen & IHt & IHsaved & IHpen);
      try congruence.
    rewrite IHscreen, IHt, IHsaved, Hscreen, Ht', Hsaved, Ht, Hs, Hc, Hj.
    repeat split.
    + rewrite <- app_assoc. destruct (hasPoints path); reflexivity.
    + destruct IHpen as (IHf & _). congruence.
    + destruct IHpen as (_ & IHs & _). congruence.
    + destruct IHpen as (_ & _ & IHc & _). congruence.
    + destruct IHpen as (_ & _ & _ & IHj). congruence.
Qed.

Lemma draw_frame_shape :
  forall (props : CanvasBoardProps) (dom : DOM) (context2d : bool) (st : State),
    (draw props dom context2d st = None <->
     canvasRef dom = None \/ containerRef dom = None \/ context2d = false) /\
    (forall container : HTMLDivElement,
       canvasRef dom <> None -> containerRef dom = Some container ->
       context2d = true ->
       draw props dom context2d st =
         Some {| frameWidth := clientWidth container;
                 frameHeight := clientHeight container;
                 frameOps :=
                   ClearRect (lit 0) (lit 0) (clientWidth container)
                             (clientHeight container)
                   :: match imgObj st with
                      | None => []
                      | Some img =>
                          DrawImage (viewTransform st) img (lit 0) (lit 0)
                          :: map (previewStroke st) (filter hasPoints (paths st))
                          ++ (if hasPoints (candidate props st)
                              then [previewStroke st (candidate props st)]
                              else [])
                      end |}).
Proof.
  intros props dom context2d st. split.
  - unfold draw.
    destruct (canvasRef dom); [|intuition].
    destruct (containerRef dom); [|intuition].
    destruct context2d; simpl; split; intros H; try discriminate; auto.
    destruct H as [H|[H|H]]; discriminate.
  - intros container Hcanvas Hcontainer Hctx. unfold draw.
    destruct (canvasRef dom); [|congruence].
    rewrite Hcontainer, Hctx. simpl. do 2 f_equal.
    destruct (imgObj st) as [img|]; [|reflexivity].
    set (ready := withPen (set_strokeStyle "rgba(239, 68, 68, 0.5)") _).
    destruct (@drawPaths_screen st (paths st) ready)
      as (Hscreen & Ht & Hsaved & Hpen); try reflexivity.
    destruct Hpen as (_ & Hs & Hc & Hj).
    unfold hasPoints at 2, candidate at 1. simpl.
    destruct (0 <? length (currentPath st))%nat eqn:Hcur.
    + destruct (drawPath_screen st (fold_left (drawPath st) (paths st) ready)
                                (candidate props st)) as (Hlast & _ & Hsaved' & _).
      unfold restore. unfold candidate in Hsaved', Hlast. rewrite Hsaved', Hsaved.
      simpl. rewrite Hlast, Hscreen, Ht, Hs, Hc, Hj. unfold hasPoints; simpl.
      rewrite Hcur. reflexivity.
    + unfold restore. rewrite Hsaved. simpl. rewrite Hscreen. simpl.
      rewrite app_nil_r. reflexivity.
Qed.

(** X8 — What one frame of the preview paints. [draw] touches the canvas
    only if the canvas, the container and a 2D context are there. It then
    gives the canvas the client size of the container and clears it; with
    no image that is all. With an image it paints, under "translate by the
    offset, then scale": the image at the origin, one translucent round
    stroke of width size/scale for each committed stroke in order, and last
    the candidate, if it has a point, with the brush size of the props. *)
Theorem draw_frame :
  forall (props : CanvasBoardProps) (dom : DOM) (context2d : bool) (st : State),
    (draw props dom context2d st = None <->
     canvasRef dom = None \/ containerRef dom = None \/ context2d = false) /\
    (forall container : HTMLDivElement,
       canvasRef dom <> None -> containerRef dom = Some container ->
       context2d = true ->
       draw props dom context2d st =
         Some {| frameWidth := clientWidth container;
                 frameHeight := clientHeight container;
                 frameOps :=
                   ClearRect (lit 0) (lit 0) (clientWidth container)
                             (clientHeight container)
                   :: match imgObj st with
                      | None => []
                      | Some img =>
                          DrawImage (viewTransform st) img (lit 0) (lit 0)
                          :: map (previewStroke st) (filter hasPoints (paths st))
                          ++ (if hasPoints (candidate props st)
                              then [previewStroke st (candidate props st)]
                              else [])
                      end |}).
Proof. exact draw_frame_shape. Qed.

Lemma exportedLines_app (a b : list PaintOp) :
  exportedLines (a ++ b) = exportedLines a ++ exportedLines b.
Proof. unfold exportedLines. apply flat_map_app. Qed.

Lemma previewedLines_app (a b : list ScreenOp) :
  previewedLines (a ++ b) = previewedLines a ++ previewedLines b.
Proof. unfold previewedLines. apply flat_map_app. Qed.

Lemma exportedLines_strokes (committed : list Path) :
  exportedLines (map maskStroke committed) = map (fun path => [points path]) committed.
Proof.
  induction committed as [|path committed IH]; [reflexivity|].
  simpl. unfold exportedLines in *. simpl. rewrite IH. reflexivity.
Qed.

Lemma previewedLines_strokes (st : State) (committed : list Path) :
  previewedLines (map (previewStroke st) committed) =
    map (fun path => [points path]) committed.
Proof.
  induction committed as [|path committed IH]; [reflexivity|].
  simpl. unfold previewedLines in *. simpl. rewrite IH. reflexivity.
Qed.

(** X9 — The preview and the export stroke the same lines. Whenever both
    produce a picture of the same state, the polylines stroked on the
    screen are those stroked in the mask, in the same order, followed by
    the candidate if it has a point: what is exported is what was shown as
    committed, and the stroke still being drawn is not exported. *)
Theorem preview_shows_exported_lines :
  forall (props : CanvasBoardProps) (dom : DOM) (context2d : bool) (st : State)
         (frame : Frame) (mask : DataURL),
    draw props dom context2d st = Some frame ->
    getMaskDataURL dom st = Some mask ->
    previewedLines (frameOps frame) =
      exportedLines (imagePaint mask)
      ++ (if hasPoints (candidate props st) then [[currentPath st]] else []).
Proof.
  intros props dom context2d st frame mask Hdraw Hexport.
  destruct (draw_frame_shape props dom context2d st) as (Hnone & Hsome).
  destruct (canvasRef dom) as [rect|] eqn:Hcanvas;
    [|rewrite (proj2 Hnone) in Hdraw by auto; discriminate].
  destruct (containerRef dom) as [container|] eqn:Hcontainer;
    [|rewrite (proj2 Hnone) in Hdraw by auto; discriminate].
  destruct context2d;
    [|rewrite (proj2 Hnone) in Hdraw by auto; discriminate].
  rewrite (Hsome container) in Hdraw by (congruence || reflexivity).
  injection Hdraw as <-.
  unfold getMaskDataURL in Hexport.
  destruct (imgObj st) as [img|]; [|discriminate].
  destruct (getContext2d dom); [|discriminate].
  simpl in Hexport. injection Hexport as <-. unfold toDataURL; simpl.
  rewrite strokeMaskPaths_painted by reflexivity.
  rewrite previewedLines_app, exportedLines_app.
  rewrite exportedLines_strokes, previewedLines_strokes.
  destruct (hasPoints (candidate props st)); reflexivity.
Qed.

Lemma panGesture_offset (st : State) (down : Input) (moves : list Input) (up : Input) :
  isGesture PAN down moves up = true -> truthy (imgObj st) = true ->
  offset (run st (down :: moves ++ [up])) =
    panned (offset st) (pointerPos down) (map pointerPos moves) /\
  scale (run st (down :: moves ++ [up])) = scale st.
Proof.
  intros Hg Himg.
  pose proof (gesture_panPointers _ _ _ Hg) as Hall.
  destruct (isGesture_inv _ _ _ _ Hg) as (Hd & Hdm & Hm & Hmm & Hu & Hum).
  destruct (pointerDown_pan st down Hd Hdm Himg) as (Hdrag & Hlast & Hoff & Himg1).
  split.
  - rewrite run_cons, run_snoc, pointerUp_offset by assumption.
    rewrite pointerMoves_pan; auto.
    + rewrite Hoff, Hlast. reflexivity.
    + rewrite Himg1. exact Himg.
  - apply (panPointers_frame (down :: moves ++ [up]) st Hall).
Qed.

(** *** Events handled between two renders *)

Lemma panPointer_handle (render st : State) (i : Input) :
  isPanPointer i = true ->
  paths (handle render st i) = paths st /\ scale (handle render st i) = scale st /\
  imgObj (handle render st i) = imgObj st /\
  (currentPath st = [] -> currentPath (handle render st i) = []).
Proof.
  unfold isPanPointer. rewrite andb_true_iff. intros [Hkind Hmode].
  apply inMode_eq in Hmode.
  inputKind i; unfold handle; simpl.
  - unfold handlePointerDown.
    destruct (imgObj render); rewrite ?Hmode; simpl; repeat split; auto.
  - unfold handlePointerMove.
    destruct (negb (isDragging render) || negb (truthy (imgObj render)));
      rewrite ?Hmode; simpl; repeat split; auto.
  - unfold handlePointerUp. rewrite Hmode. simpl.
    rewrite andb_false_r. simpl. repeat split; auto.
Qed.

Lemma viewportInput_handle (render st : State) (i : Input) :
  isViewportInput i = true ->
  paths (handle render st i) = paths st /\ imgObj (handle render st i) = imgObj st.
Proof.
  unfold isViewportInput. intros H. apply orb_true_iff in H as [Hw|Hp].
  - inputKind i. unfold handle, handleWheel; simpl.
    destruct (imgObj render); [|auto].
    destruct (canvasRef idom); simpl; auto.
  - destruct (panPointer_handle render st i Hp) as (Hpaths & _ & Himg & _). auto.
Qed.

Lemma viewportInputs_handle (inputs : list Input) :
  forall render st : State,
    forallb isViewportInput inputs = true ->
    paths (fold_left (handle render) inputs st) = paths st /\
    imgObj (fold_left (handle render) inputs st) = imgObj st.
Proof.
  induction inputs as [|i inputs IH]; intros render st Hall; [auto|].
  cbn [forallb] in Hall. apply andb_true_iff in Hall as [Hi Hall].
  cbn [fold_left].
  destruct (viewportInput_handle render st i Hi) as (Hp & Him).
  destruct (IH render (handle render st i) Hall) as (IHp & IHim).
  rewrite IHp, IHim, Hp, Him. auto.
Qed.

Lemma viewportInputs_renders (renders : list (list Input)) :
  forall st : State,
    forallb (forallb isViewportInput) renders = true ->
    paths (runBatches st renders) = paths st /\
    imgObj (runBatches st renders) = imgObj st.
Proof.
  induction renders as [|inputs renders IH]; intros st Hall; [auto|].
  cbn [forallb] in Hall. apply andb_true_iff in Hall as [Hi Hall].
  rewrite runBatches_cons.
  destruct (viewportInputs_handle inputs st st Hi) as (Hp & Him).
  destruct (IH (batch st inputs) Hall) as (IHp & IHim).
  rewrite IHp, IHim. unfold batch. rewrite Hp, Him. auto.
Qed.

Lemma panPointers_handle (inputs : list Input) :
  forall render st : State,
    forallb isPanPointer inputs = true ->
    let st' := fold_left (handle render) inputs st in
    paths st' = paths st /\ scale st' = scale st /\ imgObj st' = imgObj st /\
    (currentPath st = [] -> currentPath st' = []).
Proof.
  induction inputs as [|i inputs IH]; intros render st Hall; cbv zeta; [auto|].
  cbn [forallb] in Hall. apply andb_true_iff in Hall as [Hi Hall].
  cbn [fold_left].
  destruct (panPointer_handle render st i Hi) as (Hp & Hs & Him & Hc).
  destruct (IH render (handle render st i) Hall) as (IHp & IHs & IHim & IHc).
  rewrite IHp, IHs, IHim, Hp, Hs, Him. repeat split; auto.
Qed.

Lemma panPointers_renders (renders : list (list Input)) :
  forall st : State,
    forallb (forallb isPanPointer) renders = true ->
    let st' := runBatches st renders in
    paths st' = paths st /\ scale st' = scale st /\ imgObj st' = imgObj st /\
    (currentPath st = [] -> currentPath st' = []).
Proof.
  induction renders as [|inputs renders IH]; intros st Hall; cbv zeta; [auto|].
  cbn [forallb] in Hall. apply andb_true_iff in Hall as [Hi Hall].
  rewrite runBatches_cons.
  destruct (panPointers_handle inputs st st Hi) as (Hp & Hs & Him & Hc).
  destruct (IH (batch st inputs) Hall) as (IHp & IHs & IHim & IHc).
  rewrite IHp, IHs, IHim. unfold batch. rewrite Hp, Hs, Him. repeat split; auto.
Qed.

(** Pointer-moves in pan mode handled by one render of a drag on a loaded
    image: each adds to the queued offset its distance from the last
    position of that render. *)
Lemma panMoves_handle (moves : list Input) :
  forall render st : State,
    forallb isPointerMove moves = true -> forallb (inMode PAN) moves = true ->
    isDragging render = true -> truthy (imgObj render) = true ->
    let st' := fold_left (handle render) moves st in
    offset st' =
      fold_left (fun off pos => {| x := x off + (x pos - x (lastPos render));
                                   y := y off + (y pos - y (lastPos render)) |})
                (map pointerPos moves) (offset st) /\
    lastPos st' = List.last (map pointerPos moves) (lastPos st) /\
    scale st' = scale st /\ paths st' = paths st /\
    currentPath st' = currentPath st /\ isDragging st' = isDragging st /\
    imgObj st' = imgObj st.
Proof.
  induction moves as [|i moves IH]; intros render st Hmoves Hmodes Hdrag Himg;
    cbv zeta.
  - simpl. repeat split.
  - cbn [forallb] in Hmoves, Hmodes. apply andb_true_iff in Hmoves as [Hi Hmoves].
    apply andb_true_iff in Hmodes as [Hm Hmodes]. apply inMode_eq in Hm.
    cbn [fold_left map].
    assert (Hstep : offset (handle render st i) =
                      {| x := x (offset st) + (x (pointerPos i) - x (lastPos render));
                         y := y (offset st) + (y (pointerPos i) - y (lastPos render)) |} /\
                    lastPos (handle render st i) = pointerPos i /\
                    scale (handle render st i) = scale st /\
                    paths (handle render st i) = paths st /\
                    currentPath (handle render st i) = currentPath st /\
                    isDragging (handle render st i) = isDragging st /\
                    imgObj (handle render st i) = imgObj st).
    { inputKind i. unfold handle, handlePointerMove, pointerPos; simpl.
      rewrite Hdrag, Himg, Hm. simpl. repeat split. }
    destruct Hstep as (Ho & Hl & Hs & Hp & Hc & Hd & Him).
    destruct (IH render (handle render st i) Hmoves Hmodes Hdrag Himg)
      as (IHo & IHl & IHs & IHp & IHc & IHd & IHim).
    rewrite IHo, IHl, IHs, IHp, IHc, IHd, IHim, Ho, Hl, Hs, Hp, Hc, Hd, Him.
    repeat split. symmetry. apply last_cons_default.
Qed.

(** X29 — The frame of the viewport operations holds whatever the renders.
    However wheel events and pointer events handled in pan mode are grouped
    into renders, they leave the committed strokes and the loaded image as
    they are, and with them the exported mask; pointer events handled in pan
    mode leave the scale too, and an empty candidate stays empty. *)
Theorem viewport_frame_any_render :
  forall (st : State) (renders : list (list Input)),
    (forallb (forallb isViewportInput) renders = true ->
     paths (runBatches st renders) = paths st /\
     imgObj (runBatches st renders) = imgObj st /\
     forall dom : DOM,
       getMaskDataURL dom (runBatches st renders) = getMaskDataURL dom st) /\
    (forallb (forallb isPanPointer) renders = true ->
     paths (runBatches st renders) = paths st /\
     scale (runBatches st renders) = scale st /\
     imgObj (runBatches st renders) = imgObj st /\
     (currentPath st = [] -> currentPath (runBatches st renders) = [])).
Proof.
  intros st renders. split.
  - intros Hall. destruct (viewportInputs_renders renders st Hall) as (Hp & Him).
    split; [exact Hp|]. split; [exact Him|].
    intros dom. unfold getMaskDataURL. rewrite Hp, Him. reflexivity.
  - intros Hall. apply (panPointers_renders renders st Hall).
Qed.

(** X25 — An image load does not end a drag. The load empties the committed
    list but leaves the candidate and the drag as they are, so that the
    pointer-up of a drag in draw mode that was in progress commits its
    candidate as the only stroke of the new image. *)
Theorem candidate_survives_image_load :
  forall (st : State) (dom : DOM) (img : HTMLImageElement) (up : Input),
    isPointerUp up = true -> inMode DRAW up = true ->
    isDragging st = true -> currentPath st <> [] ->
    currentPath (onload dom img st) = currentPath st /\
    isDragging (onload dom img st) = true /\
    paths (step (onload dom img st) up) =
      [{| points := currentPath st; size := brushSize (inProps up) |}].
Proof.
  intros st dom img up Hup Hmode Hdrag Hcur.
  assert (Hload : currentPath (onload dom img st) = currentPath st /\
                  isDragging (onload dom img st) = isDragging st /\
                  paths (onload dom img st) = []).
  { unfold onload. destruct (containerRef dom); simpl; auto. }
  destruct Hload as (Hc & Hd & Hp).
  split; [exact Hc|]. split; [congruence|].
  rewrite (pointerUp_draw _ _ Hup Hmode) by congruence.
  rewrite Hp, Hc. destruct (currentPath st); [congruence|reflexivity].
Qed.

End MoreProperties.

(** ** Further properties of the viewport, in exact arithmetic *)

Section MoreExactProperties.

Local Existing Instance Q_Number.
Local Open Scope Q_scope.

(** X10 — [getCanvasCoords] is the inverse of the transformation of the
    preview. For a scale other than 0, a screen point taken to image space
    and drawn under "translate by the offset, then scale" lands on itself,
    and an image point drawn and then taken back is itself: a stroke is
    previewed where the pointer was. *)
Theorem screen_image_round_trip :
  forall (st : State) (p : Point),
    ~ scale st == 0 ->
    Point_eq (toDevice (viewTransform st) (getCanvasCoords st p)) p /\
    Point_eq (getCanvasCoords st (toDevice (viewTransform st) p)) p.
Proof.
  intros st p Hscale.
  unfold Point_eq, toDevice, viewTransform, getCanvasCoords; simpl.
  repeat split; field; exact Hscale.
Qed.

(** X11 — The thickness of the preview. For a scale other than 0, every
    stroke of a frame belongs to a committed stroke or to the candidate,
    has the width size/scale in image space and, under the scaling of the
    frame, the width size on the screen: a stroke is previewed as many
    screen pixels thick as its size says, at every zoom. *)
Theorem preview_width_on_screen :
  forall (props : CanvasBoardProps) (dom : DOM) (context2d : bool) (st : State)
         (frame : Frame) (calls : list TransformCall) (style : string) (w : Q)
         (cap join : string) (line : list (list Point)),
    ~ scale st == 0 ->
    draw props dom context2d st = Some frame ->
    In (StrokeLine calls style w cap join line) (frameOps frame) ->
    exists path : Path,
      (In path (paths st) \/ path = candidate props st) /\
      line = [points path] /\
      w == size path / scale st /\
      deviceWidth calls w == size path.
Proof.
  intros props dom context2d st frame calls style w cap join line Hscale Hdraw Hin.
  destruct (@draw_frame_shape Q_Number props dom context2d st) as (Hnone & Hsome).
  destruct (canvasRef dom) as [rect|] eqn:Hcanvas;
    [|rewrite (proj2 Hnone) in Hdraw by auto; discriminate].
  destruct (containerRef dom) as [container|] eqn:Hcontainer;
    [|rewrite (proj2 Hnone) in Hdraw by auto; discriminate].
  destruct context2d;
    [|rewrite (proj2 Hnone) in Hdraw by auto; discriminate].
  rewrite (Hsome container) in Hdraw by (congruence || reflexivity).
  injection Hdraw as <-. simpl in Hin.
  destruct Hin as [Hin|Hin]; [discriminate|].
  destruct (imgObj st) as [img|]; [|destruct Hin].
  destruct Hin as [Hin|Hin]; [discriminate|].
  assert (Hpath : exists path : Path,
             (In path (paths st) \/ path = candidate props st) /\
             previewStroke st path = StrokeLine calls style w cap join line).
  { apply in_app_or in Hin as [Hin|Hin].
    - apply in_map_iff in Hin as (path & Heq & Hin).
      apply filter_In in Hin as (Hin & _). eauto.
    - destruct (hasPoints (candidate props st)); [|destruct Hin].
      destruct Hin as [Heq|[]]. eauto. }
  destruct Hpath as (path & Hwhere & Heq).
  exists path. unfold previewStroke in Heq. injection Heq as <- _ <- _ _ <-.
  split; [exact Hwhere|]. split; [reflexivity|]. split; [reflexivity|].
  unfold deviceWidth, viewTransform; simpl. field. exact Hscale.
Qed.

Lemma panned_telescope (visited : list Point) :
  forall off last : Point,
    x (panned off last visited) == x off + (x (List.last visited last) - x last) /\
    y (panned off last visited) == y off + (y (List.last visited last) - y last).
Proof.
  induction visited as [|pos rest IH]; intros off last.
  - simpl. split; symmetry; ring.
  - set (next := @Build_Point Q_Number (x off + (x pos - x last))
                                       (y off + (y pos - y last))).
    destruct (IH next pos) as (Hx & Hy).
    change (panned off last (pos :: rest)) with (panned next pos rest).
    rewrite last_cons_default.
    rewrite Hx, Hy. simpl. split; ring.
Qed.

Lemma panGesture_follows (st : State) (down : Input) (moves : list Input) (up : Input) :
  isGesture PAN down moves up = true -> truthy (imgObj st) = true ->
  let st' := run st (down :: moves ++ [up]) in
  let first := pointerPos down in
  let final := List.last (map pointerPos moves) (pointerPos down) in
  x (offset st') == x (offset st) + (x final - x first) /\
  y (offset st') == y (offset st) + (y final - y first) /\
  Point_eq (getCanvasCoords st' final) (getCanvasCoords st first).
Proof.
  intros Hg Himg.
  destruct (@panGesture_offset Q_Number st down moves up Hg Himg) as (Hoff & Hscale).
  destruct (panned_telescope (map pointerPos moves) (offset st) (pointerPos down))
    as (Hx & Hy).
  cbv zeta. rewrite Hoff. split; [exact Hx|]. split; [exact Hy|].
  unfold Point_eq, getCanvasCoords. rewrite Hscale, Hoff.
  cbn [x y Q_Number nsub ndiv]. rewrite Hx, Hy.
  unfold Qdiv. split; ring.
Qed.

(** X12 — Pan follows the pointer when every move is rendered. On a loaded
    image, take a drag in pan mode whose pointer-down is rendered before the
    first move and in which no render handles two moves. After it the offset
    has moved by the displacement of the pointer between the pointer-down
    and the last move, however the moves in between went, and the image
    point that was under the pointer at the pointer-down is under it at the
    end. *)
Theorem pan_follows_pointer :
  forall (st : State) (down : Input) (renders : list (list Input)) (up : Input),
    isGesture PAN down (concat renders) up = true -> truthy (imgObj st) = true ->
    Forall (fun moves => (length moves <= 1)%nat) renders ->
    let st' := step (runBatches (step st down) renders) up in
    let first := pointerPos down in
    let final := List.last (map pointerPos (concat renders)) (pointerPos down) in
    x (offset st') == x (offset st) + (x final - x first) /\
    y (offset st') == y (offset st) + (y final - y first) /\
    Point_eq (getCanvasCoords st' final) (getCanvasCoords st first).
Proof.
  intros st down renders up Hg Himg Hshort.
  rewrite (@runBatches_short Q_Number renders (step st down) Hshort).
  rewrite <- (@run_snoc Q_Number), <- (@run_cons Q_Number).
  apply panGesture_follows; assumption.
Qed.

Lemma total_displacements (anchor : Q) (visited : list Q) :
  total (map (fun v => v - anchor) visited)
  == total (map (fun v => v - anchor) (removelast visited))
     + (List.last visited anchor - anchor).
Proof.
  induction visited as [|v rest IH].
  - simpl. ring.
  - destruct rest as [|w rest].
    + simpl. ring.
    + change (removelast (v :: w :: rest)) with (v :: removelast (w :: rest)).
      change (List.last (v :: w :: rest) anchor) with (List.last (w :: rest) anchor).
      cbn [map total fold_right] in *. rewrite IH. unfold total. ring.
Qed.

Lemma drift_total (anchor : Point) (visited : list Point) :
  forall off : Point,
    let off' :=
      fold_left (fun o pos => @Build_Point Q_Number (x o + (x pos - x anchor))
                                                    (y o + (y pos - y anchor)))
                visited off in
    x off' == x off + total (map (fun v => v - x anchor) (map (@x Q_Number) visited)) /\
    y off' == y off + total (map (fun v => v - y anchor) (map (@y Q_Number) visited)).
Proof.
  induction visited as [|pos rest IH]; intros off; cbv zeta.
  - simpl. split; symmetry; ring.
  - cbn [fold_left map].
    destruct (IH (@Build_Point Q_Number (x off + (x pos - x anchor))
                                        (y off + (y pos - y anchor)))) as (Hx & Hy).
    rewrite Hx, Hy. cbn [x y]. unfold total. cbn [fold_right]. split; ring.
Qed.

(** X30 — Pan moves that share a render. When several pointer-moves of a
    drag in pan mode on a loaded image are handled before the next render,
    each of them adds to the offset its distance from the last position of
    that render, not from the move before it: the last position is read from
    the render while the offset is updated where it is queued. The offset
    then ends ahead of the pointer by the displacements of all the moves but
    the last, and agrees with it when the render handles one move. Nothing
    else changes but the last position. *)
Theorem pan_moves_between_renders :
  forall (st : State) (moves : list Input),
    forallb isPointerMove moves = true -> forallb (inMode PAN) moves = true ->
    isDragging st = true -> truthy (imgObj st) = true ->
    let st' := batch st moves in
    let xs := map (@x Q_Number) (map pointerPos moves) in
    let ys := map (@y Q_Number) (map pointerPos moves) in
    let final := List.last (map pointerPos moves) (lastPos st) in
    x (offset st') == x (offset st) + total (map (fun v => v - x (lastPos st)) xs) /\
    y (offset st') == y (offset st) + total (map (fun v => v - y (lastPos st)) ys) /\
    x (offset st') - (x (offset st) + (x final - x (lastPos st)))
      == total (map (fun v => v - x (lastPos st)) (removelast xs)) /\
    y (offset st') - (y (offset st) + (y final - y (lastPos st)))
      == total (map (fun v => v - y (lastPos st)) (removelast ys)) /\
    lastPos st' = final /\
    scale st' = scale st /\ paths st' = paths st /\
    currentPath st' = currentPath st /\ isDragging st' = true /\
    imgObj st' = imgObj st.
Proof.
  intros st moves Hmoves Hmodes Hdrag Himg. cbv zeta.
  destruct (@panMoves_handle Q_Number moves st st Hmoves Hmodes Hdrag Himg)
    as (Ho & Hl & Hs & Hp & Hc & Hd & Him).
  unfold batch. rewrite Ho, Hl, Hs, Hp, Hc, Hd, Him.
  destruct (drift_total (lastPos st) (map pointerPos moves) (offset st)) as (Hx & Hy).
  cbv zeta in Hx, Hy. rewrite Hx, Hy.
  pose proof (total_displacements (x (lastPos st))
                (map (@x Q_Number) (map pointerPos moves))) as Htx.
  pose proof (total_displacements (y (lastPos st))
                (map (@y Q_Number) (map pointerPos moves))) as Hty.
  assert (Hlx : @List.last Q (map (@x Q_Number) (map pointerPos moves)) (x (lastPos st))
                = x (List.last (map pointerPos moves) (lastPos st)))
    by apply (@last_map_apply Point Q).
  assert (Hly : @List.last Q (map (@y Q_Number) (map pointerPos moves)) (y (lastPos st))
                = y (List.last (map pointerPos moves) (lastPos st)))
    by apply (@last_map_apply Point Q).
  rewrite Hlx in Htx. rewrite Hly in Hty.
  split; [reflexivity|]. split; [reflexivity|].
  split; [rewrite Htx; set (t := total _); ring|].
  split; [rewrite Hty; set (t := total _); ring|].
  repeat split; auto.
Qed.



(** X26 — The direction of the zoom. On a loaded image whose scale is within
    [0.1, 10], a wheel event with a negative or zero [deltaY] never lowers
    the scale and one with a positive or zero [deltaY] never raises it. On
    an image fitted below 0.1, every wheel event, also one that asks to zoom
    out, raises the scale to at least 0.1. *)
Theorem zoom_direction :
  forall (dom : DOM) (rect : DOMRect) (img : HTMLImageElement) (st : State)
         (e : WheelEvent),
    imgObj st = Some img -> canvasRef dom = Some rect ->
    exists st' : State,
      handleWheel dom st st e = Some st' /\
      (0.1 <= scale st <= 10 -> deltaY e <= 0 -> scale st <= scale st') /\
      (0.1 <= scale st <= 10 -> 0 <= deltaY e -> scale st' <= scale st) /\
      (scale st < 0.1 -> scale st < 0.1 <= scale st').
Proof.
  intros dom rect img st e Himg Hrect.
  destruct (@handleWheel_scale _ _ _ _ e Himg Hrect) as (st' & Hw & Hs).
  exists st'. split; [exact Hw|]. rewrite Hs.
  set (v := scale st + - deltaY e * 0.001).
  pose proof (clamp_range v) as Hrange.
  destruct (clamp_cases v) as (Hhigh & Hlow & Hmid).
  split; [|split].
  - intros Hin Hd. assert (Hv : scale st <= v) by (unfold v; lra).
    destruct (Qlt_le_dec 10 v) as [Hbig|Hsmall].
    + rewrite Hhigh by lra. lra.
    + rewrite Hmid by lra. exact Hv.
  - intros Hin Hd. assert (Hv : v <= scale st) by (unfold v; lra).
    destruct (Qlt_le_dec v 0.1) as [Hsmall|Hbig].
    + rewrite Hlow by lra. lra.
    + rewrite Hmid by lra. exact Hv.
  - intros Hbelow. split; [exact Hbelow|apply Hrange].
Qed.

(** X27 — The fitted image is in view and centred. After a load with
    positive sizes, the scaled image is at most 0.9 times as wide and as
    high as the container, it lies within the container with a positive
    margin on every side, and the margins on opposite sides are equal. *)
Theorem fitted_image_in_view :
  forall (dom : DOM) (container : HTMLDivElement) (img : HTMLImageElement) (st : State),
    containerRef dom = Some container ->
    0 < width img -> 0 < height img ->
    0 < clientWidth container -> 0 < clientHeight container ->
    let st' := onload dom img st in
    let shownWidth := width img * scale st' in
    let shownHeight := height img * scale st' in
    shownWidth <= 0.9 * clientWidth container /\
    shownHeight <= 0.9 * clientHeight container /\
    0 < x (offset st') /\ 0 < y (offset st') /\
    x (offset st') + shownWidth + x (offset st') == clientWidth container /\
    y (offset st') + shownHeight + y (offset st') == clientHeight container.
Proof.
  intros dom container img st Hc Hiw Hih Hcw Hch. cbv zeta.
  unfold onload. rewrite Hc. simpl.
  pose proof (Math_min_lower (clientWidth container / width img)
                             (clientHeight container / height img) 1) as (Hx & Hy & _).
  set (fit := @Math_min Q_Number (clientWidth container / width img)
                                 [clientHeight container / height img; 1]) in *.
  change (Qmin (Qmin (clientWidth container / width img)
                     (clientHeight container / height img)) 1) with fit.
  assert (Hfw : width img * fit <= clientWidth container).
  { apply Qle_trans with (width img * (clientWidth container / width img)).
    - apply Qmult_le_l; assumption.
    - assert (E : width img * (clientWidth container / width img)
                  == clientWidth container) by (field; lra).
      rewrite E. apply Qle_refl. }
  assert (Hfh : height img * fit <= clientHeight container).
  { apply Qle_trans with (height img * (clientHeight container / height img)).
    - apply Qmult_le_l; assumption.
    - assert (E : height img * (clientHeight container / height img)
                  == clientHeight container) by (field; lra).
      rewrite E. apply Qle_refl. }
  generalize dependent fit. intros fit _ _ Hfw Hfh.
  set (cw := clientWidth container) in *. set (ch := clientHeight container) in *.
  set (iw := width img) in *. set (ih := height img) in *.
  assert (Hw9 : iw * (fit * 0.9) == 0.9 * (iw * fit)) by ring.
  assert (Hh9 : ih * (fit * 0.9) == 0.9 * (ih * fit)) by ring.
  repeat split.
  - rewrite Hw9. lra.
  - rewrite Hh9. lra.
  - apply Qlt_shift_div_l; [lra|]. rewrite Hw9. lra.
  - apply Qlt_shift_div_l; [lra|]. rewrite Hh9. lra.
  - field.
  - field.
Qed.

End MoreExactProperties.

(** ** Properties of the before/after slider *)

Section ImageCompareProperties.

(** X14 — The slider moves only during a resize. For every reading of the
    numbers, from a state in which no resize is in progress, no sequence of
    mouse moves and mouse-ups changes the state: only a mouse-down on the
    handle starts a resize. *)
Theorem slider_moves_only_while_resizing :
  forall (N : Number) (st : ImageCompare.State) (events : list ImageCompare.Event),
    ImageCompare.isResizing st = false ->
    forallb (fun ev => negb (ImageCompare.isMouseDown ev)) events = true ->
    ImageCompare.run st events = st.
Proof.
  intros N st events Hidle Hall.
  induction events as [|ev events IH]; [reflexivity|].
  cbn [forallb] in Hall. apply andb_true_iff in Hall as [Hev Hall].
  change (ImageCompare.run st (ev :: events))
    with (ImageCompare.run (ImageCompare.step st ev) events).
  assert (Hstep : ImageCompare.step st ev = st).
  { destruct ev; simpl in *; try discriminate; rewrite Hidle; reflexivity. }
  rewrite Hstep. exact (IH Hall).
Qed.

End ImageCompareProperties.

Section ImageCompareExactProperties.

Local Existing Instance Q_Number.
Local Open Scope Q_scope.

Lemma handleMouseMove_position (rect : ImageCompare.Rect) (st : ImageCompare.State)
    (clientX : Q) :
  ImageCompare.isResizing st = true ->
  ImageCompare.sliderPosition (ImageCompare.handleMouseMove (Some rect) st clientX) =
    Qmax 0 (Qmin (clientX - ImageCompare.rectLeft rect) (ImageCompare.rectWidth rect))
    / ImageCompare.rectWidth rect * 100.
Proof.
  intros Hres. unfold ImageCompare.handleMouseMove. rewrite Hres. reflexivity.
Qed.

Lemma step_slider_range (st : ImageCompare.State) (ev : ImageCompare.Event) :
  ImageCompare.laidOut ev ->
  0 <= ImageCompare.sliderPosition st <= 100 ->
  0 <= ImageCompare.sliderPosition (ImageCompare.step st ev) <= 100.
Proof.
  intros Hlaid Hinv. destruct ev as [|[rect|] clientX|]; cbn [ImageCompare.step].
  - exact Hinv.
  - destruct (ImageCompare.isResizing st) eqn:Hres; [|exact Hinv].
    rewrite handleMouseMove_position by exact Hres.
    simpl in Hlaid.
    set (w := ImageCompare.rectWidth rect) in *.
    set (d := clientX - ImageCompare.rectLeft rect).
    assert (Hlo : 0 <= Qmax 0 (Qmin d w)) by apply Q.le_max_l.
    assert (Hhi : Qmax 0 (Qmin d w) <= w).
    { apply Q.max_lub; [lra|apply Q.le_min_r]. }
    generalize dependent (Qmax 0 (Qmin d w)). intros px Hlo Hhi.
    split.
    + apply Qmult_le_0_compat; [|lra].
      apply Qle_shift_div_l; [exact Hlaid|lra].
    + assert (px / w <= 1) by (apply Qle_shift_div_r; [exact Hlaid|lra]).
      lra.
  - destruct (ImageCompare.isResizing st); exact Hinv.
  - destruct (ImageCompare.isResizing st); exact Hinv.
Qed.

(** X15 — The slider stays on the picture. Starting from the initial 50, and
    with a container of positive width whenever a move is handled, the
    slider position is a percentage between 0 and 100 after any sequence of
    mouse events. *)
Theorem slider_in_range :
  forall events : list ImageCompare.Event,
    Forall ImageCompare.laidOut events ->
    0 <= ImageCompare.sliderPosition
           (ImageCompare.run ImageCompare.initialState events) <= 100.
Proof.
  intros events Hlaid.
  assert (Hrun : forall st : ImageCompare.State,
             0 <= ImageCompare.sliderPosition st <= 100 ->
             0 <= ImageCompare.sliderPosition (ImageCompare.run st events) <= 100).
  { induction Hlaid as [|ev events Hev Hlaid IH]; intros st Hst; [exact Hst|].
    apply (IH (ImageCompare.step st ev)). apply step_slider_range; assumption. }
  apply Hrun. simpl. lra.
Qed.

(** X16 — Where the slider goes. During a resize over a container of
    positive width, a move to the left of the container puts the slider at
    0, a move to the right of it at 100, and a move over it at the
    percentage of the width that lies to the left of the pointer. *)
Theorem slider_follows_pointer :
  forall (rect : ImageCompare.Rect) (st : ImageCompare.State) (clientX : Q),
    ImageCompare.isResizing st = true ->
    0 < ImageCompare.rectWidth rect ->
    let left := ImageCompare.rectLeft rect in
    let w := ImageCompare.rectWidth rect in
    let st' := ImageCompare.step st (ImageCompare.MouseMove (Some rect) clientX) in
    ImageCompare.isResizing st' = true /\
    (clientX <= left -> ImageCompare.sliderPosition st' == 0) /\
    (left + w <= clientX -> ImageCompare.sliderPosition st' == 100) /\
    (left <= clientX <= left + w ->
     ImageCompare.sliderPosition st' == (clientX - left) / w * 100).
Proof.
  intros rect st clientX Hres Hw. cbv zeta. cbn [ImageCompare.step]. rewrite Hres.
  rewrite handleMouseMove_position by exact Hres.
  split.
  { unfold ImageCompare.handleMouseMove. rewrite Hres. simpl. exact Hres. }
  set (w := ImageCompare.rectWidth rect) in *.
  set (l := ImageCompare.rectLeft rect).
  repeat split.
  - intros Hleft.
    rewrite (Q.min_l (clientX - l) w) by lra.
    rewrite (Q.max_l 0 (clientX - l)) by lra.
    field. lra.
  - intros Hright.
    rewrite (Q.min_r (clientX - l) w) by lra.
    rewrite (Q.max_r 0 w) by lra.
    field. lra.
  - intros [Hlo Hhi].
    rewrite (Q.min_l (clientX - l) w) by lra.
    rewrite (Q.max_r 0 (clientX - l)) by lra.
    reflexivity.
Qed.

End ImageCompareExactProperties.

(** ** Properties of the edit service *)

Section GeminiServiceProperties.

Import GeminiService.
Local Open Scope string_scope.

Lemma stripPrefix_app (prefix s : string) : stripPrefix prefix (prefix ++ s) = Some s.
Proof.
  induction prefix as [|a prefix IH]; simpl.
  - destruct s; reflexivity.
  - rewrite Ascii.eqb_refl. exact IH.
Qed.

Lemma stripPrefix_sound (prefix : string) :
  forall s after : string, stripPrefix prefix s = Some after -> s = prefix ++ after.
Proof.
  induction prefix as [|a prefix IH]; intros s after H.
  - destruct s; simpl in H; injection H as <-; reflexivity.
  - destruct s as [|b s]; simpl in H; [discriminate|].
    destruct (Ascii.eqb a b) eqn:Hab; [|discriminate].
    apply Ascii.eqb_eq in Hab. subst b. simpl. f_equal. apply IH. exact H.
Qed.

Lemma spanWord_sound (s : string) :
  forall word after : string,
    spanWord s = (word, after) ->
    s = word ++ after /\ isWord word = true.
Proof.
  induction s as [|c s IH]; intros word after H; simpl in H.
  - injection H as <- <-. auto.
  - destruct (isWordChar c) eqn:Hc.
    + destruct (spanWord s) as [w a]. injection H as <- <-.
      destruct (IH w a eq_refl) as (Hs & Hw). simpl. rewrite Hc, Hw, <- Hs. auto.
    + injection H as <- <-. auto.
Qed.

Lemma spanWord_app (word : string) :
  forall (c : ascii) (after : string),
    isWord word = true -> isWordChar c = false ->
    spanWord (word ++ String c after) = (word, String c after).
Proof.
  induction word as [|a word IH]; intros c after Hw Hc; simpl.
  - rewrite Hc. reflexivity.
  - simpl in Hw. apply andb_true_iff in Hw as [Ha Hw].
    rewrite Ha, (IH c after Hw Hc). reflexivity.
Qed.

Lemma matchImageDataURL_build (subtype data : string) :
  isWord subtype = true -> subtype <> "" ->
  matchImageDataURL (imageDataURL subtype data) = Some (subtype, data).
Proof.
  intros Hw Hne. unfold matchImageDataURL, imageDataURL.
  rewrite stripPrefix_app.
  change (";base64," ++ data) with (String ";" ("base64," ++ data)).
  rewrite spanWord_app by (exact Hw || reflexivity).
  destruct subtype; [congruence|].
  change (String ";" ("base64," ++ data)) with (";base64," ++ data).
  rewrite stripPrefix_app. reflexivity.
Qed.

Lemma matchImageDataURL_sound (s subtype data : string) :
  matchImageDataURL s = Some (subtype, data) ->
  s = imageDataURL subtype data /\ isWord subtype = true /\ subtype <> "".
Proof.
  unfold matchImageDataURL, imageDataURL. intros H.
  destruct (stripPrefix "data:image/" s) as [s1|] eqn:H1; [|discriminate].
  destruct (spanWord s1) as [word s2] eqn:H2.
  destruct word as [|c word]; [discriminate|].
  destruct (stripPrefix ";base64," s2) as [after|] eqn:H3; [|discriminate].
  injection H as <- <-.
  apply stripPrefix_sound in H1, H3.
  apply spanWord_sound in H2 as (H2 & Hw).
  subst s s1 s2. repeat split; [exact Hw|discriminate].
Qed.

(** X17 — The regular expression [/^data:image\/(\w+);base64,/] recognises
    exactly the strings ["data:image/" + subtype + ";base64," + data] whose
    subtype is a non-empty word, and gives back that subtype and that
    data. *)
Theorem image_data_url_round_trip :
  forall s subtype data : string,
    matchImageDataURL s = Some (subtype, data) <->
    s = imageDataURL subtype data /\ isWord subtype = true /\ subtype <> "".
Proof.
  intros s subtype data. split.
  - apply matchImageDataURL_sound.
  - intros (-> & Hw & Hne). apply matchImageDataURL_build; assumption.
Qed.

(** X18 — What is sent to the model. The request names the model
    gemini-2.5-flash-image and has three parts in this order: the
    instruction, the original and the mask. An original that is a data URL
    of an image goes with its own mime type and without the prefix, and a
    PNG mask goes as its bare payload; an original that is no such data URL
    goes whole, labelled image/png. *)
Theorem request_parts :
  (forall subtype data maskData : string,
     isWord subtype = true -> subtype <> "" ->
     buildRequest (imageDataURL subtype data) (imageDataURL "png" maskData) =
       {| model := "gemini-2.5-flash-image";
          parts := [ TextPart instruction;
                     InlineData ("image/" ++ subtype) data;
                     InlineData "image/png" maskData ] |}) /\
  (forall original maskData : string,
     matchImageDataURL original = None ->
     buildRequest original (imageDataURL "png" maskData) =
       {| model := "gemini-2.5-flash-image";
          parts := [ TextPart instruction;
                     InlineData "image/png" original;
                     InlineData "image/png" maskData ] |}).
Proof.
  split.
  - intros subtype data maskData Hw Hne. unfold buildRequest, stripDataURLPrefix.
    rewrite (matchImageDataURL_build data Hw Hne).
    rewrite (@matchImageDataURL_build "png" maskData) by (reflexivity || discriminate).
    reflexivity.
  - intros original maskData Hnone. unfold buildRequest, stripDataURLPrefix.
    rewrite Hnone.
    rewrite (@matchImageDataURL_build "png" maskData) by (reflexivity || discriminate).
    reflexivity.
Qed.

Lemma firstImage_skip (skipped rest : list ResponsePart) :
  forallb hasNoData skipped = true ->
  firstImage (skipped ++ rest) = firstImage rest.
Proof.
  induction skipped as [|part skipped IH]; intros Hall; [reflexivity|].
  cbn [forallb] in Hall. apply andb_true_iff in Hall as [Hpart Hall].
  simpl. rewrite <- (IH Hall). unfold hasNoData in Hpart.
  destruct (inlineData part) as [[mime [[|c data]|]]|]; try reflexivity.
  discriminate.
Qed.

Lemma firstImage_none (responseParts : list ResponsePart) :
  forallb hasNoData responseParts = true -> firstImage responseParts = None.
Proof.
  intros Hall. rewrite <- (app_nil_r responseParts).
  rewrite firstImage_skip by exact Hall. reflexivity.
Qed.

Lemma firstImage_shape (responseParts : list ResponsePart) (url : string) :
  firstImage responseParts = Some url ->
  exists mime data : string,
    url = "data:" ++ mime ++ ";base64," ++ data /\ mime <> "" /\ data <> "".
Proof.
  induction responseParts as [|part responseParts IH]; simpl; [discriminate|].
  destruct (inlineData part) as [[mime [[|c data]|]]|]; auto.
  intros H. injection H as <-.
  exists (orDefault mime "image/png"), (String c data).
  split; [reflexivity|]. split; [|discriminate].
  destruct mime as [[|a m]|]; discriminate.
Qed.

(** X19 — How a call ends. An error of the client library is thrown on as
    it is. When the first candidate of the response has parts, the parts
    without inline data, or with undefined or empty data, are passed over
    and the first part with data gives the result, the data URL of its mime
    type and data; when no part has data, the call throws "No image
    generated." *)
Theorem removeWatermark_outcome :
  forall (E : Type) (generateContent : Request -> E + Response)
         (original mask : string),
    (forall e : E,
       generateContent (buildRequest original mask) = inl e ->
       removeWatermark generateContent original mask = Thrown (ApiError e)) /\
    (forall (skipped rest : list ResponsePart) (mime data : string),
       generateContent (buildRequest original mask)
         = inr (responseWith (skipped ++ imagePart mime data :: rest)) ->
       forallb hasNoData skipped = true -> mime <> "" -> data <> "" ->
       removeWatermark generateContent original mask
         = Returned ("data:" ++ mime ++ ";base64," ++ data)) /\
    (forall responseParts : list ResponsePart,
       generateContent (buildRequest original mask) = inr (responseWith responseParts) ->
       forallb hasNoData responseParts = true ->
       removeWatermark generateContent original mask = Thrown NoImageGenerated).
Proof.
  intros E generateContent original mask. unfold removeWatermark. repeat split.
  - intros e ->. reflexivity.
  - intros skipped rest mime data -> Hskip Hmime Hdata.
    unfold extractImage, responseWith; simpl.
    rewrite firstImage_skip by exact Hskip.
    destruct data as [|c data]; [congruence|].
    destruct mime as [|a mime]; [congruence|]. reflexivity.
  - intros responseParts -> Hall.
    unfold extractImage, responseWith; simpl.
    rewrite firstImage_none by exact Hall. reflexivity.
Qed.

(** X20 — A result is always a data URL: whatever the client library
    answers, a call that returns gives a string of the form
    ["data:" + mime + ";base64," + data] with a mime type and data that are
    not empty. *)
Theorem result_is_data_url :
  forall (E : Type) (generateContent : Request -> E + Response)
         (original mask url : string),
    removeWatermark generateContent original mask = Returned url ->
    exists mime data : string,
      url = "data:" ++ mime ++ ";base64," ++ data /\ mime <> "" /\ data <> "".
Proof.
  intros E generateContent original mask url. unfold removeWatermark, extractImage.
  destruct (generateContent (buildRequest original mask)) as [e|response];
    [discriminate|].
  destruct (candidates response) as [[|first others]|]; try discriminate.
  destruct (content first) as [c|]; [|discriminate].
  destruct (contentParts c) as [responseParts|]; [|discriminate].
  destruct (firstImage responseParts) as [u|] eqn:Hfirst; [|discriminate].
  intros H. injection H as <-. exact (firstImage_shape _ Hfirst).
Qed.

End GeminiServiceProperties.

(** ** Properties of the application *)

Section AppProperties.

Context {N : Number}.
Local Open Scope string_scope.

Lemma truthyString_some (o : option string) (s : string) :
  App.truthyString o = Some s -> o = Some s /\ s <> "".
Proof.
  destruct o as [[|c rest]|]; simpl; intros H; try discriminate.
  injection H as <-. split; [reflexivity|discriminate].
Qed.

(** X21 — One run of [handleProcess]. Nothing is sent, nothing changes and
    no alert is shown unless there is an image source, a mounted canvas and
    an exported mask. Otherwise exactly the request built from the image
    source and the mask is sent, and the run ends with [isProcessing]
    false: on a result, with the result stored and the comparison shown;
    on a failure, with the alert and with result and comparison as they
    were. Image source, tool, brush size and mask flag are never touched. *)
Theorem handleProcess_outcome :
  forall (E : Type)
         (generateContent : GeminiService.Request -> E + GeminiService.Response)
         (encode : DataURL -> string) (dom : DOM) (board : option State)
         (app : App.AppState),
    let done := App.handleProcess generateContent encode dom board app in
    (App.sent done = None ->
     App.after done = app /\ App.alerted done = false) /\
    (forall request : GeminiService.Request,
       App.sent done = Some request ->
       exists (src maskData : string) (st : State) (mask : DataURL),
         App.imageSrc app = Some src /\ board = Some st /\
         getMaskDataURL dom st = Some mask /\ maskData = encode mask /\
         request = GeminiService.buildRequest src maskData /\
         App.isProcessing (App.after done) = false /\
         match GeminiService.removeWatermark generateContent src maskData with
         | GeminiService.Returned result =>
             App.resultImage (App.after done) = Some result /\
             App.showCompare (App.after done) = true /\
             App.alerted done = false
         | GeminiService.Thrown _ =>
             App.resultImage (App.after done) = App.resultImage app /\
             App.showCompare (App.after done) = App.showCompare app /\
             App.alerted done = true
         end) /\
    App.imageSrc (App.after done) = App.imageSrc app /\
    App.mode (App.after done) = App.mode app /\
    App.brushSize (App.after done) = App.brushSize app /\
    App.hasMask (App.after done) = App.hasMask app.
Proof.
  intros E generateContent encode dom board app. cbv zeta.
  unfold App.handleProcess.
  destruct (App.truthyString (App.imageSrc app)) as [src|] eqn:Hsrc;
    [|simpl; repeat split; intros; discriminate].
  destruct board as [st|]; [|simpl; repeat split; intros; discriminate].
  destruct (App.truthyString (option_map encode (getMaskDataURL dom st)))
    as [maskData|] eqn:Hmask;
    [|simpl; repeat split; intros; discriminate].
  apply truthyString_some in Hsrc as (Hsrc & _).
  apply truthyString_some in Hmask as (Hmask & _).
  destruct (getMaskDataURL dom st) as [mask|] eqn:Hexport; [|discriminate].
  simpl in Hmask. injection Hmask as <-.
  destruct (GeminiService.removeWatermark generateContent src (encode mask))
    as [result|failure] eqn:Hcall; simpl.
  - repeat split; try discriminate.
    intros request Hreq. injection Hreq as <-.
    exists src, (encode mask), st, mask. rewrite Hcall. simpl. repeat split; auto.
  - repeat split; try discriminate.
    intros request Hreq. injection Hreq as <-.
    exists src, (encode mask), st, mask. rewrite Hcall. simpl. repeat split; auto.
Qed.

(** X22 — From the strokes to the request. With a data URL of an image as
    the image source, an image loaded in the canvas, a 2D context, and a
    browser that encodes masks as PNG data URLs, [handleProcess] sends the
    image with its own mime type and payload, and as the mask the PNG of a
    picture of the natural size of the image: black, with one white stroke
    for each committed stroke that has a point. *)
Theorem handleProcess_sends_mask :
  forall (E : Type)
         (generateContent : GeminiService.Request -> E + GeminiService.Response)
         (payload : DataURL -> string) (dom : DOM) (st : State)
         (img : HTMLImageElement) (app : App.AppState) (subtype data : string),
    App.imageSrc app = Some (GeminiService.imageDataURL subtype data) ->
    GeminiService.isWord subtype = true -> subtype <> "" ->
    imgObj st = Some img -> getContext2d dom = true ->
    let encode := fun mask => GeminiService.imageDataURL "png" (payload mask) in
    App.sent (App.handleProcess generateContent encode dom (Some st) app) =
      Some {| GeminiService.model := "gemini-2.5-flash-image";
              GeminiService.parts :=
                [ GeminiService.TextPart GeminiService.instruction;
                  GeminiService.InlineData ("image/" ++ subtype) data;
                  GeminiService.InlineData "image/png"
                    (payload
                       {| imageWidth := width img;
                          imageHeight := height img;
                          imagePaint :=
                            FillRect "black" (lit 0) (lit 0) (width img) (height img)
                            :: map maskStroke (filter hasPoints (paths st)) |}) ] |}.
Proof.
  intros E generateContent payload dom st img app subtype data
         Hsrc Hword Hne Himg Hctx. cbv zeta.
  unfold App.handleProcess. rewrite Hsrc.
  unfold getMaskDataURL. rewrite Himg, Hctx. simpl.
  unfold toDataURL; simpl.
  rewrite strokeMaskPaths_painted by reflexivity. simpl.
  assert (Hreq : forall maskData : string,
             GeminiService.buildRequest (GeminiService.imageDataURL subtype data)
                                        (GeminiService.imageDataURL "png" maskData) =
             {| GeminiService.model := "gemini-2.5-flash-image";
                GeminiService.parts :=
                  [ GeminiService.TextPart GeminiService.instruction;
                    GeminiService.InlineData ("image/" ++ subtype) data;
                    GeminiService.InlineData "image/png" maskData ] |}).
  { intros maskData. unfold GeminiService.buildRequest, GeminiService.stripDataURLPrefix.
    rewrite (matchImageDataURL_build data Hword Hne).
    rewrite (@matchImageDataURL_build "png" maskData) by (reflexivity || discriminate).
    reflexivity. }
  destruct (GeminiService.removeWatermark _ _ _); simpl; rewrite <- Hreq; reflexivity.
Qed.

(** X23 — The name of the downloaded file. The result is downloaded if
    there is one, else the image source; if both are missing or empty no
    link is clicked. The file is named watermark-removed-<time>.<ext>,
    where for a data URL of an image with a word as subtype the extension
    is that subtype, jpg standing for jpeg, and png for any other
    address. *)
Theorem handleDownload_name :
  forall (now : string) (app : App.AppState),
    (App.truthyString (App.resultImage app) = None ->
     App.truthyString (App.imageSrc app) = None ->
     App.handleDownload now app = None) /\
    (forall url subtype data : string,
       (App.truthyString (App.resultImage app) = Some url \/
        App.truthyString (App.resultImage app) = None /\
        App.truthyString (App.imageSrc app) = Some url) ->
       url = GeminiService.imageDataURL subtype data ->
       GeminiService.isWord subtype = true -> subtype <> "" ->
       App.handleDownload now app =
         Some (url, "watermark-removed-" ++ now ++ "."
                    ++ (if String.eqb subtype "jpeg" then "jpg" else subtype))) /\
    (forall url : string,
       (App.truthyString (App.resultImage app) = Some url \/
        App.truthyString (App.resultImage app) = None /\
        App.truthyString (App.imageSrc app) = Some url) ->
       GeminiService.matchImageDataURL url = None ->
       App.handleDownload now app =
         Some (url, "watermark-removed-" ++ now ++ ".png")).
Proof.
  intros now app. unfold App.handleDownload. repeat split.
  - intros -> ->. reflexivity.
  - intros url subtype data Hurl -> Hword Hne.
    assert (Hpick : match App.truthyString (App.resultImage app) with
                    | Some result => result
                    | None => match App.truthyString (App.imageSrc app) with
                              | Some src => src | None => "" end
                    end = GeminiService.imageDataURL subtype data).
    { destruct Hurl as [->|(-> & ->)]; reflexivity. }
    rewrite Hpick. unfold App.downloadExtension.
    rewrite (matchImageDataURL_build data Hword Hne). reflexivity.
  - intros url Hurl Hnone.
    assert (Hpick : match App.truthyString (App.resultImage app) with
                    | Some result => result
                    | None => match App.truthyString (App.imageSrc app) with
                              | Some src => src | None => "" end
                    end = url).
    { destruct Hurl as [->|(-> & ->)]; reflexivity. }
    assert (Hne : url <> "").
    { destruct Hurl as [H|(_ & H)]; apply truthyString_some in H; apply H. }
    rewrite Hpick. unfold App.downloadExtension. rewrite Hnone.
    destruct url; [congruence|reflexivity].
Qed.

(** X24 — Editing the result again. When the model answers with an image
    whose mime type is image/<word>, the string [removeWatermark] returns,
    used as the original of the next call, is sent with that mime type and
    with exactly the data the model gave; and it is downloaded with that
    word as extension (jpg for jpeg). *)
Theorem edited_image_round_trip :
  forall (E : Type)
         (generateContent : GeminiService.Request -> E + GeminiService.Response)
         (original mask nextMask : string)
         (skipped rest : list GeminiService.ResponsePart) (subtype data : string),
    generateContent (GeminiService.buildRequest original mask)
      = inr (GeminiService.responseWith
               (skipped ++ GeminiService.imagePart ("image/" ++ subtype) data :: rest)) ->
    forallb GeminiService.hasNoData skipped = true ->
    GeminiService.isWord subtype = true -> subtype <> "" -> data <> "" ->
    exists url : string,
      GeminiService.removeWatermark generateContent original mask
        = GeminiService.Returned url /\
      nth_error (GeminiService.parts (GeminiService.buildRequest url nextMask)) 1
        = Some (GeminiService.InlineData ("image/" ++ subtype) data) /\
      App.downloadExtension url
        = (if String.eqb subtype "jpeg" then "jpg" else subtype).
Proof.
  intros E generateContent original mask nextMask skipped rest subtype data
         Hresp Hskip Hword Hne Hdata.
  exists (GeminiService.imageDataURL subtype data). repeat split.
  - unfold GeminiService.removeWatermark. rewrite Hresp.
    unfold GeminiService.extractImage, GeminiService.responseWith; simpl.
    rewrite firstImage_skip by exact Hskip.
    destruct data as [|c data]; [congruence|]. reflexivity.
  - unfold GeminiService.buildRequest, GeminiService.stripDataURLPrefix.
    rewrite (matchImageDataURL_build data Hword Hne). reflexivity.
  - unfold App.downloadExtension.
    rewrite (matchImageDataURL_build data Hword Hne). reflexivity.
Qed.

(** X28 — After applying and after ending. When there is a result,
    [handleApply] makes it the image source, forgets it as a result, closes
    the comparison and empties the mask of the canvas, and the download
    then fetches the applied image; with no result it changes nothing.
    After [handleResetImage] nothing can be downloaded and [handleProcess]
    sends nothing. *)
Theorem after_apply_and_reset :
  forall (E : Type)
         (generateContent : GeminiService.Request -> E + GeminiService.Response)
         (encode : DataURL -> string) (dom : DOM) (board : option State)
         (now : string) (app : App.AppState),
    (forall result : string,
       App.truthyString (App.resultImage app) = Some result ->
       let applied := App.handleApply board app in
       App.imageSrc (fst applied) = Some result /\
       App.resultImage (fst applied) = None /\
       App.showCompare (fst applied) = false /\
       option_map paths (snd applied) = option_map (fun _ => []) board /\
       exists name : string,
         App.handleDownload now (fst applied) = Some (result, name)) /\
    (App.truthyString (App.resultImage app) = None ->
     App.handleApply board app = (app, board)) /\
    App.handleDownload now (App.handleResetImage app) = None /\
    App.sent (App.handleProcess generateContent encode dom board
                                (App.handleResetImage app)) = None.
Proof.
  intros E generateContent encode dom board now app.
  split; [|split; [|split]].
  - intros result Hresult. cbv zeta. unfold App.handleApply. rewrite Hresult.
    apply truthyString_some in Hresult as (_ & Hne). simpl.
    repeat split.
    + destruct board; reflexivity.
    + unfold App.handleDownload; simpl.
      destruct result as [|c result]; [congruence|]. simpl. eauto.
  - intros Hnone. unfold App.handleApply. rewrite Hnone. reflexivity.
  - reflexivity.
  - reflexivity.
Qed.

End AppProperties.

(** ** Instances of the further properties on the sample inputs *)

Section MoreInstances.

Local Existing Instance Q_Number.
Local Open Scope Q_scope.


(** X2 on the history of [strokedState]. *)
Lemma export_paints_every_stroke_witness :
  imgObj (run initialState sampleHistory) = Some sampleImage /\
  getContext2d sampleDom = true /\
  option_map (fun mask => length (imagePaint mask))
             (getMaskDataURL sampleDom (run initialState sampleHistory)) = Some 2%nat.
Proof.
  split; [reflexivity|]. split; [reflexivity|].
  rewrite (@export_paints_every_stroke Q_Number sampleHistory sampleDom sampleImage)
    by reflexivity.
  reflexivity.
Defined.

(** X3 on the initial state: a drag, a pan and a zoom with no image. *)
Lemma no_image_inert_witness :
  imgObj initialState = None /\
  forallb isPointerOrWheel (resizedDrag ++ panAndZoom) = true /\
  run initialState (resizedDrag ++ panAndZoom) = initialState.
Proof.
  split; [reflexivity|]. split; [reflexivity|].
  apply (@no_image_inert Q_Number initialState (resizedDrag ++ panAndZoom) sampleDom);
    reflexivity.
Defined.


(** X6 on [loadedState]. *)
Lemma undo_after_commit_witness :
  isGesture DRAW drawDown [drawMove] drawUp = true /\
  truthy (imgObj loadedState) = true /\
  onMaskChange (run loadedState (drawDown :: [drawMove] ++ [drawUp])) = true /\
  paths (undo (run loadedState (drawDown :: [drawMove] ++ [drawUp]))) = paths loadedState.
Proof.
  split; [reflexivity|]. split; [reflexivity|].
  apply (@undo_after_commit Q_Number loadedState drawDown [drawMove] drawUp); reflexivity.
Defined.


(** X8 on [strokedState]: the frame has the clear, the image and one stroke. *)
Lemma draw_frame_witness :
  canvasRef sampleDom <> None /\
  containerRef sampleDom = Some sampleContainer /\
  option_map frameOps (draw (sampleProps DRAW 40) sampleDom true strokedState) =
    Some [ ClearRect 0 0 100 100;
           DrawImage (viewTransform strokedState) sampleImage 0 0;
           previewStroke strokedState sampleStroke ].
Proof.
  split; [discriminate|]. split; [reflexivity|].
  rewrite (proj2 (@draw_frame Q_Number (sampleProps DRAW 40) sampleDom true strokedState)
                 sampleContainer); try reflexivity.
  discriminate.
Defined.

(** X9 on [strokedState]. *)
Lemma preview_shows_exported_lines_witness :
  exists (frame : Frame) (mask : DataURL),
    draw (sampleProps DRAW 40) sampleDom true strokedState = Some frame /\
    getMaskDataURL sampleDom strokedState = Some mask /\
    previewedLines (frameOps frame) = exportedLines (imagePaint mask) ++ [].
Proof.
  eexists. eexists. split; [reflexivity|]. split; [reflexivity|].
  apply (@preview_shows_exported_lines Q_Number (sampleProps DRAW 40) sampleDom true
           strokedState); reflexivity.
Defined.

(** X10 on [loadedState] and the screen point (40, 30). *)
Lemma screen_image_round_trip_witness :
  ~ scale loadedState == 0 /\
  Point_eq (toDevice (viewTransform loadedState)
                     (getCanvasCoords loadedState (screenPoint 40 30)))
           (screenPoint 40 30).
Proof.
  assert (Hscale : ~ scale loadedState == 0) by (intros H; discriminate H).
  split; [exact Hscale|].
  apply (screen_image_round_trip loadedState (screenPoint 40 30) Hscale).
Defined.

(** X11 on [strokedState]: its stroke of size 20 is 20 screen pixels wide. *)
Lemma preview_width_on_screen_witness :
  ~ scale strokedState == 0 /\
  exists path : Path,
    (In path (paths strokedState) \/ path = candidate (sampleProps DRAW 40) strokedState) /\
    deviceWidth (viewTransform strokedState) (size sampleStroke / scale strokedState)
      == size path.
Proof.
  assert (Hscale : ~ scale strokedState == 0) by (intros H; discriminate H).
  split; [exact Hscale|].
  destruct (@preview_width_on_screen (sampleProps DRAW 40) sampleDom true strokedState
              (@Build_Frame Q_Number 100 100
                 [ @ClearRect Q_Number 0 0 100 100;
                   @DrawImage Q_Number (viewTransform strokedState) sampleImage 0 0;
                   previewStroke strokedState sampleStroke ])
              (viewTransform strokedState) "rgba(239, 68, 68, 0.5)"
              (size sampleStroke / scale strokedState) "round" "round"
              [points sampleStroke] Hscale)
    as (path & Hwhere & _ & _ & Hwidth).
  - reflexivity.
  - right. right. left. reflexivity.
  - exists path. split; assumption.
Defined.

(** X12 on [strokedState]: the pan drag from (10, 10) to (30, 25) and on to
    (50, 40), each move in a render of its own. *)
Lemma pan_follows_pointer_witness :
  isGesture PAN panDown (concat renderedMoves) panUp = true /\
  truthy (imgObj strokedState) = true /\
  Forall (fun moves => (length moves <= 1)%nat) renderedMoves /\
  x (offset (step (runBatches (step strokedState panDown) renderedMoves) panUp))
    == x (offset strokedState) + (50 - 10) /\
  y (offset (step (runBatches (step strokedState panDown) renderedMoves) panUp))
    == y (offset strokedState) + (40 - 10).
Proof.
  assert (Hshort : Forall (fun moves : list Input => (length moves <= 1)%nat)
                          renderedMoves).
  { unfold renderedMoves.
    repeat (apply Forall_cons; [simpl; lia|]). apply Forall_nil. }
  split; [reflexivity|]. split; [reflexivity|]. split; [exact Hshort|].
  destruct (@pan_follows_pointer strokedState panDown renderedMoves panUp)
    as (Hx & Hy & _); try reflexivity; [exact Hshort|].
  split; [rewrite Hx|rewrite Hy]; reflexivity.
Defined.


(** X14 on the initial state of the slider: a move and a mouse-up with no
    mouse-down before them. *)
Lemma slider_moves_only_while_resizing_witness :
  ImageCompare.isResizing ImageCompare.initialState = false /\
  ImageCompare.run ImageCompare.initialState (tl sliderDrag) = ImageCompare.initialState.
Proof.
  split; [reflexivity|].
  apply (@slider_moves_only_while_resizing Q_Number ImageCompare.initialState
           (tl sliderDrag)); reflexivity.
Defined.

(** X15 on [sliderDrag]. *)
Lemma slider_in_range_witness :
  Forall ImageCompare.laidOut sliderDrag /\
  0 <= ImageCompare.sliderPosition
         (ImageCompare.run ImageCompare.initialState sliderDrag) <= 100.
Proof.
  assert (Hlaid : Forall ImageCompare.laidOut sliderDrag).
  { repeat constructor. }
  split; [exact Hlaid|]. apply (slider_in_range Hlaid).
Defined.

(** X16 on a container from 100 to 500 and a pointer at 300: the middle. *)
Lemma slider_follows_pointer_witness :
  ImageCompare.isResizing (ImageCompare.handleMouseDown ImageCompare.initialState) = true /\
  0 < ImageCompare.rectWidth sampleSliderRect /\
  100 <= 300 <= 100 + 400 /\
  ImageCompare.sliderPosition
    (ImageCompare.step (ImageCompare.handleMouseDown ImageCompare.initialState)
                       (ImageCompare.MouseMove (Some sampleSliderRect) 300))
    == (300 - 100) / 400 * 100.
Proof.
  assert (Hin : 100 <= 300 <= 100 + 400) by (split; discriminate).
  split; [reflexivity|]. split; [reflexivity|]. split; [exact Hin|].
  apply (@slider_follows_pointer sampleSliderRect
           (ImageCompare.handleMouseDown ImageCompare.initialState) 300);
    (reflexivity || exact Hin).
Defined.

(** X17 on a JPEG data URL, in both directions. *)
Lemma image_data_url_round_trip_witness :
  GeminiService.isWord "jpeg" = true /\
  GeminiService.matchImageDataURL "data:image/jpeg;base64,AAAA" = Some ("jpeg", "AAAA")%string /\
  "data:image/jpeg;base64,AAAA"%string = GeminiService.imageDataURL "jpeg" "AAAA".
Proof.
  split; [reflexivity|].
  assert (Hmatch : GeminiService.matchImageDataURL "data:image/jpeg;base64,AAAA"
                   = Some ("jpeg", "AAAA")%string).
  { apply (proj2 (image_data_url_round_trip "data:image/jpeg;base64,AAAA" "jpeg" "AAAA")).
    split; [reflexivity|]. split; [reflexivity|discriminate]. }
  split; [exact Hmatch|].
  apply (proj1 (image_data_url_round_trip "data:image/jpeg;base64,AAAA" "jpeg" "AAAA")
               Hmatch).
Defined.

(** X18 on a JPEG original, and on an address that is no data URL. *)
Lemma request_parts_witness :
  GeminiService.parts (GeminiService.buildRequest sampleOriginal sampleMaskURL) =
    [ GeminiService.TextPart GeminiService.instruction;
      GeminiService.InlineData "image/jpeg" "AAAA";
      GeminiService.InlineData "image/png" "BBBB" ] /\
  GeminiService.matchImageDataURL "https://example.org/a.jpg" = None /\
  GeminiService.parts (GeminiService.buildRequest "https://example.org/a.jpg" sampleMaskURL) =
    [ GeminiService.TextPart GeminiService.instruction;
      GeminiService.InlineData "image/png" "https://example.org/a.jpg";
      GeminiService.InlineData "image/png" "BBBB" ].
Proof.
  destruct request_parts as (Hdata & Hother).
  split; [|split; [reflexivity|]].
  - unfold sampleOriginal, sampleMaskURL.
    rewrite (Hdata "jpeg" "AAAA" "BBBB")%string by (reflexivity || discriminate).
    reflexivity.
  - unfold sampleMaskURL.
    rewrite (Hother "https://example.org/a.jpg" "BBBB")%string by reflexivity.
    reflexivity.
Defined.

(** X19 on the three kinds of answer. *)
Lemma removeWatermark_outcome_witness :
  GeminiService.removeWatermark (failing "quota") sampleOriginal sampleMaskURL
    = GeminiService.Thrown (GeminiService.ApiError "quota"%string) /\
  GeminiService.removeWatermark (answering sampleAnswer) sampleOriginal sampleMaskURL
    = GeminiService.Returned "data:image/webp;base64,CCCC"%string /\
  GeminiService.removeWatermark (answering emptyAnswer) sampleOriginal sampleMaskURL
    = GeminiService.Thrown GeminiService.NoImageGenerated.
Proof.
  split; [|split].
  - apply (proj1 (removeWatermark_outcome (failing "quota") sampleOriginal sampleMaskURL)).
    reflexivity.
  - apply (proj1 (proj2 (removeWatermark_outcome (answering sampleAnswer)
                           sampleOriginal sampleMaskURL))
             [ {| GeminiService.inlineData := None |} ] [] "image/webp" "CCCC")%string;
      (reflexivity || discriminate).
  - apply (proj2 (proj2 (removeWatermark_outcome (answering emptyAnswer)
                           sampleOriginal sampleMaskURL))
             [ {| GeminiService.inlineData := None |} ]); reflexivity.
Defined.

(** X20 on the answer with an image. *)
Lemma result_is_data_url_witness :
  GeminiService.removeWatermark (answering sampleAnswer) sampleOriginal sampleMaskURL
    = GeminiService.Returned "data:image/webp;base64,CCCC"%string /\
  exists mime data : string,
    "data:image/webp;base64,CCCC"%string = ("data:" ++ mime ++ ";base64," ++ data)%string /\
    mime <> ""%string /\ data <> ""%string.
Proof.
  split; [reflexivity|].
  apply (@result_is_data_url string (answering sampleAnswer) sampleOriginal sampleMaskURL).
  reflexivity.
Defined.

(** X21 on [sampleApp] with the stroke of [strokedState]: a run that gets an
    image, and a run with no canvas. *)
Lemma handleProcess_outcome_witness :
  (App.sent (App.handleProcess (answering sampleAnswer) sampleEncode sampleDom
                               (Some strokedState) sampleApp)
     = Some (GeminiService.buildRequest sampleOriginal sampleMaskURL) /\
   App.isProcessing
     (App.after (App.handleProcess (answering sampleAnswer) sampleEncode sampleDom
                                   (Some strokedState) sampleApp)) = false) /\
  (App.sent (App.handleProcess (answering sampleAnswer) sampleEncode sampleDom
                               None sampleApp) = None /\
   App.after (App.handleProcess (answering sampleAnswer) sampleEncode sampleDom
                                None sampleApp) = sampleApp).
Proof.
  split.
  - split; [reflexivity|].
    destruct (@handleProcess_outcome Q_Number string (answering sampleAnswer) sampleEncode
                sampleDom (Some strokedState) sampleApp) as (_ & Hsent & _).
    destruct (Hsent (GeminiService.buildRequest sampleOriginal sampleMaskURL) eq_refl)
      as (src & maskData & st & mask & _ & _ & _ & _ & _ & Hdone & _).
    exact Hdone.
  - split; [reflexivity|].
    apply (proj1 (@handleProcess_outcome Q_Number string (answering sampleAnswer)
                    sampleEncode sampleDom None sampleApp)).
    reflexivity.
Defined.

(** X22 on [sampleApp] with the stroke of [strokedState]. *)
Lemma handleProcess_sends_mask_witness :
  App.imageSrc sampleApp = Some (GeminiService.imageDataURL "jpeg" "AAAA") /\
  GeminiService.isWord "jpeg" = true /\
  imgObj strokedState = Some sampleImage /\ getContext2d sampleDom = true /\
  option_map GeminiService.parts
    (App.sent (App.handleProcess (answering sampleAnswer) sampleEncode sampleDom
                                 (Some strokedState) sampleApp)) =
    Some [ GeminiService.TextPart GeminiService.instruction;
           GeminiService.InlineData "image/jpeg" "AAAA";
           GeminiService.InlineData "image/png" "BBBB" ].
Proof.
  repeat (split; [reflexivity|]).
  unfold sampleEncode.
  rewrite (@handleProcess_sends_mask Q_Number string (answering sampleAnswer)
             samplePayload sampleDom strokedState sampleImage sampleApp "jpeg" "AAAA")%string;
    (reflexivity || discriminate).
Defined.

(** X23 on [sampleApp], which has an image source and no result. *)
Lemma handleDownload_name_witness :
  App.truthyString (App.resultImage sampleApp) = None /\
  App.truthyString (App.imageSrc sampleApp) = Some sampleOriginal /\
  App.handleDownload "1700000000000" sampleApp =
    Some (sampleOriginal, "watermark-removed-1700000000000.jpg"%string) /\
  App.handleDownload "1700000000000" (@App.initialState Q_Number) = None.
Proof.
  split; [reflexivity|]. split; [reflexivity|].
  destruct (@handleDownload_name Q_Number "1700000000000" sampleApp) as (_ & Hdata & _).
  destruct (@handleDownload_name Q_Number "1700000000000" App.initialState)
    as (Hnone & _).
  split.
  - rewrite (Hdata sampleOriginal "jpeg" "AAAA")%string;
      (reflexivity || discriminate || (right; split; reflexivity)).
  - apply Hnone; reflexivity.
Defined.

(** X24 on an answer with a WebP image. *)
Lemma edited_image_round_trip_witness :
  GeminiService.isWord "webp" = true /\
  exists url : string,
    GeminiService.removeWatermark (answering sampleAnswer) sampleOriginal sampleMaskURL
      = GeminiService.Returned url /\
    nth_error (GeminiService.parts (GeminiService.buildRequest url sampleMaskURL)) 1
      = Some (GeminiService.InlineData "image/webp" "CCCC") /\
    App.downloadExtension url = "webp"%string.
Proof.
  split; [reflexivity|].
  apply (@edited_image_round_trip string (answering sampleAnswer) sampleOriginal
           sampleMaskURL sampleMaskURL [ {| GeminiService.inlineData := None |} ] []
           "webp" "CCCC")%string; (reflexivity || discriminate).
Defined.

(** X25 on a drag begun on [sampleImage] during which [largeImage] loads. *)
Lemma candidate_survives_image_load_witness :
  isDragging (step loadedState drawDown) = true /\
  currentPath (step loadedState drawDown) <> [] /\
  paths (step (onload sampleDom largeImage (step loadedState drawDown)) drawUp) =
    [{| points := currentPath (step loadedState drawDown); size := 20 |}].
Proof.
  assert (Hcur : currentPath (step loadedState drawDown) <> []) by discriminate.
  split; [reflexivity|]. split; [exact Hcur|].
  apply (@candidate_survives_image_load Q_Number (step loadedState drawDown)
           sampleDom largeImage drawUp); (reflexivity || exact Hcur).
Defined.

(** X26 on [loadedState], zooming in, and on the large image fitted at
    0.009, with a wheel event that asks to zoom out. *)
Lemma zoom_direction_witness :
  (imgObj loadedState = Some sampleImage /\ canvasRef sampleDom = Some sampleRect /\
   0.1 <= scale loadedState <= 10 /\ deltaY sampleWheel <= 0 /\
   exists st' : State,
     handleWheel sampleDom loadedState loadedState sampleWheel = Some st' /\
     scale loadedState <= scale st') /\
  (scale (step initialState largeImageLoad) < 0.1 /\
   exists st' : State,
     handleWheel sampleDom (step initialState largeImageLoad) (step initialState largeImageLoad) (oppositeWheel sampleWheel)
       = Some st' /\
     0.1 <= scale st').
Proof.
  assert (Hin : 0.1 <= scale loadedState <= 10) by (split; discriminate).
  assert (Hd : deltaY sampleWheel <= 0) by discriminate.
  assert (Hbelow : scale (step initialState largeImageLoad) < 0.1) by reflexivity.
  split.
  - split; [reflexivity|]. split; [reflexivity|]. split; [exact Hin|]. split; [exact Hd|].
    destruct (@zoom_direction sampleDom sampleRect sampleImage loadedState sampleWheel)
      as (st' & Hw & Hup & _); try reflexivity.
    exists st'. split; [exact Hw|]. exact (Hup Hin Hd).
  - split; [exact Hbelow|].
    destruct (@zoom_direction sampleDom sampleRect largeImage
                (step initialState largeImageLoad) (oppositeWheel sampleWheel))
      as (st' & Hw & _ & _ & Hraise); try reflexivity.
    exists st'. split; [exact Hw|]. apply (Hraise Hbelow).
Defined.

(** X27 on the large image in the 100 x 100 container. *)
Lemma fitted_image_in_view_witness :
  containerRef sampleDom = Some sampleContainer /\
  0 < width largeImage /\ 0 < clientWidth sampleContainer /\
  width largeImage * scale (onload sampleDom largeImage strokedState)
    <= 0.9 * clientWidth sampleContainer /\
  0 < x (offset (onload sampleDom largeImage strokedState)).
Proof.
  split; [reflexivity|]. split; [reflexivity|]. split; [reflexivity|].
  destruct (@fitted_image_in_view sampleDom sampleContainer largeImage strokedState)
    as (Hw & _ & Hx & _); try reflexivity.
  split; [exact Hw|exact Hx].
Defined.

(** X28 on [editedApp] and the canvas in [strokedState]. *)
Lemma after_apply_and_reset_witness :
  App.truthyString (App.resultImage editedApp) = Some "data:image/webp;base64,CCCC"%string /\
  App.imageSrc (fst (App.handleApply (Some strokedState) editedApp))
    = Some "data:image/webp;base64,CCCC"%string /\
  option_map paths (snd (App.handleApply (Some strokedState) editedApp)) = Some [] /\
  App.truthyString (App.resultImage sampleApp) = None /\
  App.handleApply (Some strokedState) sampleApp = (sampleApp, Some strokedState).
Proof.
  destruct (@after_apply_and_reset Q_Number string (answering sampleAnswer) sampleEncode
              sampleDom (Some strokedState) "1700000000000"%string editedApp)
    as (Happly & _).
  destruct (Happly "data:image/webp;base64,CCCC"%string eq_refl)
    as (Hsrc & _ & _ & Hpaths & _).
  destruct (@after_apply_and_reset Q_Number string (answering sampleAnswer) sampleEncode
              sampleDom (Some strokedState) "1700000000000"%string sampleApp)
    as (_ & Hnone & _).
  split; [reflexivity|]. split; [exact Hsrc|]. split; [exact Hpaths|].
  split; [reflexivity|]. apply Hnone. reflexivity.
Defined.

(** X29 on [strokedState]: a pan drag and a zoom in two renders, and the
    pan drag whose two moves share a render. *)
Lemma viewport_frame_any_render_witness :
  (forallb (forallb isViewportInput) panAndZoomRenders = true /\
   paths (runBatches strokedState panAndZoomRenders) = paths strokedState /\
   getMaskDataURL sampleDom (runBatches strokedState panAndZoomRenders)
     = getMaskDataURL sampleDom strokedState) /\
  (forallb (forallb isPanPointer) unrenderedMoves = true /\
   currentPath strokedState = [] /\
   paths (runBatches strokedState unrenderedMoves) = paths strokedState /\
   scale (runBatches strokedState unrenderedMoves) = scale strokedState /\
   currentPath (runBatches strokedState unrenderedMoves) = []).
Proof.
  split.
  - destruct (@viewport_frame_any_render Q_Number strokedState panAndZoomRenders)
      as (Hview & _).
    destruct Hview as (Hp & _ & Hmask); [reflexivity|].
    split; [reflexivity|]. split; [exact Hp|apply Hmask].
  - destruct (@viewport_frame_any_render Q_Number strokedState unrenderedMoves)
      as (_ & Hpan).
    destruct Hpan as (Hp & Hs & _ & Hc); [reflexivity|].
    split; [reflexivity|]. split; [reflexivity|].
    split; [exact Hp|]. split; [exact Hs|]. apply Hc. reflexivity.
Defined.

(** X30 on [panStarted]: the moves to (30, 25) and (50, 40) handled by the
    render of the pointer-down at (10, 10). *)
Lemma pan_moves_between_renders_witness :
  forallb isPointerMove [panMove; panMoveOn] = true /\
  forallb (inMode PAN) [panMove; panMoveOn] = true /\
  isDragging panStarted = true /\ truthy (imgObj panStarted) = true /\
  x (offset (batch panStarted [panMove; panMoveOn]))
    == x (offset panStarted) + ((30 - 10) + ((50 - 10) + 0)) /\
  x (offset (batch panStarted [panMove; panMoveOn]))
    - (x (offset panStarted) + (50 - 10)) == (30 - 10) + 0 /\
  lastPos (batch panStarted [panMove; panMoveOn]) = screenPoint (50 - 0) (40 - 0).
Proof.
  split; [reflexivity|]. split; [reflexivity|].
  split; [reflexivity|]. split; [reflexivity|].
  destruct (@pan_moves_between_renders panStarted [panMove; panMoveOn])
    as (Hx & _ & Hahead & _ & Hlast & _); try reflexivity.
  split; [rewrite Hx; reflexivity|]. split; [rewrite Hahead; reflexivity|].
  rewrite Hlast. reflexivity.
Defined.

End MoreInstances.
